(** * fastapi_hello/main.py: the MediaShare "hello world" service

    A shallow embedding of [main.py] and the properties of its five
    handlers.  The module reads three environment variables and the clock
    when it is imported, and then answers [GET /], [GET /health],
    [GET /metadata] and [GET /ready]; any exception that escapes a route is
    turned into a 500 answer by [global_exception_handler].

    The parts of the Python runtime the handlers call are modelled first
    (binary64 floats and [round], [str] of an exception, [os.getenv],
    [datetime.isoformat]), then the module itself, then the theorems. *)

From stdpp Require Import base numbers strings gmap.
From Stdlib Require Import SpecFloat DecimalString.

Local Open Scope Z_scope.

(* ================================================================== *)
(** * Part I: the Python runtime used by [main.py] *)
(* ================================================================== *)

(** ** Floats

    A Python [float] is an IEEE-754 binary64 number.  The standard
    library's specification of floating-point arithmetic is used as it is,
    at precision 53 and infinity exponent 1024. *)

Definition prec : Z := 53.
Definition emax : Z := 1024.

Abbreviation float := spec_float.

(** [x - y] on floats. *)
Definition float_sub (x y : float) : float := SFsub prec emax x y.

(** [x <= y] on floats ([False] as soon as one side is a NaN). *)
Definition float_le (x y : float) : bool := SFleb x y.

(** What the operating system can hand back from a clock: a finite
    binary64 number in normal form. *)
Definition is_finite (x : float) : bool :=
  match x with
  | S754_zero _ | S754_finite _ _ _ => true
  | _ => false
  end.

Definition clock_value (x : float) : Prop :=
  is_finite x = true ∧ valid_binary prec emax x = true.

(** Nearest integer to [a / b], ties to the even one ([0 < b]). *)
Definition div_half_even (a b : Z) : Z :=
  let q := a / b in
  match 2 * (a mod b) ?= b with
  | Lt => q
  | Eq => if Z.even q then q else q + 1
  | Gt => q + 1
  end.

(** The integer nearest to [m * 2^e * scale], ties to even. *)
Definition scaled_half_even (m : positive) (e : Z) (scale : Z) : Z :=
  match e with
  | Zneg k => div_half_even (Zpos m * scale) (2 ^ Zpos k)
  | _ => Zpos m * scale * 2 ^ e
  end.

(** The float nearest to [n / d] with sign [s], for [0 < n] and [0 < d]:
    the quotient is formed by the division kernel of the specification and
    rounded once. *)
Definition float_of_ratio (s : bool) (n d : Z) : float :=
  let '(mz, ez, lz) := SFdiv_core_binary prec emax n 0 d 0 in
  binary_round_aux prec emax s mz ez lz.

(** [round(x, ndigits)] for [ndigits >= 0], as [float.__round__] does it:
    NaN and the infinities are returned unchanged; otherwise the exact
    binary value of [x] is rounded to [ndigits] decimals, half to even
    (the shortest correctly rounded decimal string of that many digits),
    and that decimal is converted back to the nearest float.  The sign of
    [x] is kept, also on a zero result. *)
Definition round (x : float) (ndigits : nat) : float :=
  match x with
  | S754_finite s m e =>
      let scale := 10 ^ Z.of_nat ndigits in
      let n := scaled_half_even m e scale in
      if n =? 0 then S754_zero s else float_of_ratio s n scale
  | _ => x
  end.

(** ** Exceptions and [str]

    An argument of an exception is seen through its renderings [str(a)]
    and [repr(a)], and through whether it is [None]. *)
Record pyobject := { py_str : string; py_repr : string; py_is_none : bool }.

(** An exception is seen through the text [str(exc)] evaluates to, which
    is all that the handler of the module reads of it. *)
Record exception := { exc_str : string }.

Fixpoint join (sep : string) (l : list string) : string :=
  match l with
  | [] => ""
  | [a] => a
  | a :: rest => a +:+ sep +:+ join sep rest
  end.

(** [BaseException.__str__]: the empty string without arguments, [str] of
    the argument when there is one, [str] of the tuple otherwise. *)
Definition BaseException_str (args : list pyobject) : string :=
  match args with
  | [] => ""
  | [a] => py_str a
  | _ => "(" +:+ join ", " (map py_repr args) +:+ ")"
  end.

(** [KeyError.__str__]: [repr] of the key when there is one argument. *)
Definition KeyError_str (args : list pyobject) : string :=
  match args with
  | [a] => py_repr a
  | _ => BaseException_str args
  end.

(** [OSError.__str__] on POSIX.  With two to five arguments the first two
    are the error number and its text, the third is a file name unless it
    is [None], the fourth is ignored, and the fifth is a second file name
    unless it is [None] or there is no first one.  With any other number
    of arguments the text is that of [BaseException.__str__]. *)
Definition OSError_str (args : list pyobject) : string :=
  match args with
  | errno :: strerror :: rest =>
      let head := "[Errno " +:+ py_str errno +:+ "] " +:+ py_str strerror in
      match rest with
      | [] => head
      | [filename] | [filename; _] =>
          if py_is_none filename then head
          else head +:+ ": " +:+ py_repr filename
      | [filename; _; filename2] =>
          if py_is_none filename then head
          else if py_is_none filename2 then head +:+ ": " +:+ py_repr filename
          else head +:+ ": " +:+ py_repr filename +:+ " -> " +:+ py_repr filename2
      | _ => BaseException_str args
      end
  | _ => BaseException_str args
  end.

(** The exception classes that are built in the samples below. *)
Inductive exception_class := Exception | KeyError | OSError.

(** An instance of the class [cls] built from [args]. *)
Definition new_exception (cls : exception_class) (args : list pyobject) : exception :=
  {| exc_str := match cls with
                | Exception => BaseException_str args
                | KeyError => KeyError_str args
                | OSError => OSError_str args
                end |}.

Definition str (exc : exception) : string := exc_str exc.

(** ** Results of calls that may raise *)

Inductive result (A : Type) : Type :=
| Ok (a : A)
| Raise (exc : exception).
Arguments Ok {A} a.
Arguments Raise {A} exc.

#[global] Instance result_ret : MRet result := λ A a, Ok a.

#[global] Instance result_bind : MBind result := λ A B k r,
  match r with
  | Ok a => k a
  | Raise exc => Raise exc
  end.

(** ** [os.getenv] *)

Definition getenv (environ : gmap string string) (key default : string) : string :=
  match environ !! key with
  | Some v => v
  | None => default
  end.

(** ** [datetime] and [isoformat] *)

Record datetime := {
  year : N; month : N; day : N;
  hour : N; minute : N; second : N; microsecond : N;
  (** [None] for a naive datetime, else the UTC offset in minutes *)
  tzinfo : option Z
}.

Definition decimal (n : N) : string := NilZero.string_of_uint (N.to_uint n).

Fixpoint zeros (k : nat) : string :=
  match k with
  | O => ""
  | S k' => "0" +:+ zeros k'
  end.

(** ["%0<width>d" % n] *)
Definition zfill (width : nat) (n : N) : string :=
  zeros (width - String.length (decimal n)) +:+ decimal n.

Definition format_date (dt : datetime) : string :=
  zfill 4 (year dt) +:+ "-" +:+ zfill 2 (month dt) +:+ "-" +:+ zfill 2 (day dt).

Definition format_time (dt : datetime) : string :=
  zfill 2 (hour dt) +:+ ":" +:+ zfill 2 (minute dt) +:+ ":" +:+ zfill 2 (second dt)
  +:+ (if N.eqb (microsecond dt) 0 then "" else "." +:+ zfill 6 (microsecond dt)).

Definition format_utcoffset (tz : option Z) : string :=
  match tz with
  | None => ""
  | Some off =>
      (if off <? 0 then "-" else "+")
      +:+ zfill 2 (Z.to_N (Z.abs off / 60)) +:+ ":"
      +:+ zfill 2 (Z.to_N (Z.abs off mod 60))
  end.

Definition isoformat (dt : datetime) : string :=
  format_date dt +:+ "T" +:+ format_time dt +:+ format_utcoffset (tzinfo dt).

(** ** The operating system during one request

    What the three system queries of the module answer: [time.time()],
    the broken-down UTC time behind [datetime.utcnow()], and
    [socket.gethostname()], which raises [OSError] when the lookup fails. *)
Record OS := {
  time_time : float;
  utc_fields : N * N * N * N * N * N * N;
  socket_gethostname : result string
}.

(** [datetime.utcnow()]: the UTC time as a naive datetime. *)
Definition datetime_utcnow (os : OS) : datetime :=
  let '(y, mo, d, h, mi, s, us) := utc_fields os in
  {| year := y; month := mo; day := d; hour := h; minute := mi; second := s;
     microsecond := us; tzinfo := None |}.

(** ** JSON values and HTTP answers *)

#[warnings="-register-all"]
Inductive json :=
| JString (s : string)
| JFloat (x : float)
| JObject (fields : list (string * json)).

Record response := { status_code : Z; content : json }.

(* ================================================================== *)
(** * Part II: [main.py] *)
(* ================================================================== *)

(** The module globals, set once when the module is imported. *)
Record process := {
  APP_VERSION : string;
  ENVIRONMENT : string;
  CLOUD_PROVIDER : string;
  START_TIME : float
}.

Definition startup (environ : gmap string string) (os : OS) : process :=
  {| APP_VERSION := getenv environ "APP_VERSION" "1.0.0";
     ENVIRONMENT := getenv environ "ENVIRONMENT" "development";
     CLOUD_PROVIDER := getenv environ "CLOUD_PROVIDER" "unknown";
     START_TIME := time_time os |}.

Record HealthResponse := {
  status : string;
  timestamp : string;
  hostname : string;
  environment : string;
  cloud_provider : string;
  version : string;
  uptime_seconds : float
}.

(** The JSON object a [HealthResponse] is serialised to. *)
Definition HealthResponse_json (h : HealthResponse) : json :=
  JObject [("status", JString (status h));
           ("timestamp", JString (timestamp h));
           ("hostname", JString (hostname h));
           ("environment", JString (environment h));
           ("cloud_provider", JString (cloud_provider h));
           ("version", JString (version h));
           ("uptime_seconds", JFloat (uptime_seconds h))].

Definition root (p : process) : json :=
  JObject [("message", JString "Welcome to MediaShare API");
           ("version", JString (APP_VERSION p));
           ("docs", JString "/docs");
           ("health", JString "/health")].

Definition health_check (p : process) (os : OS) : result HealthResponse :=
  let ts := isoformat (datetime_utcnow os) in
  host ← socket_gethostname os ;
  Ok {| status := "healthy";
        timestamp := ts;
        hostname := host;
        environment := ENVIRONMENT p;
        cloud_provider := CLOUD_PROVIDER p;
        version := APP_VERSION p;
        uptime_seconds := round (float_sub (time_time os) (START_TIME p)) 2 |}.

Definition instance_metadata (p : process) (os : OS) : result json :=
  host ← socket_gethostname os ;
  Ok (JObject [("hostname", JString host);
               ("environment", JString (ENVIRONMENT p));
               ("cloud_provider", JString (CLOUD_PROVIDER p));
               ("version", JString (APP_VERSION p))]).

Definition readiness_check : json :=
  JObject [("status", JString "ready")].

Definition global_exception_handler (os : OS) (exc : exception) : response :=
  {| status_code := 500;
     content := JObject [("error", JString "Internal Server Error");
                         ("detail", JString (str exc));
                         ("timestamp", JString (isoformat (datetime_utcnow os)))] |}.

(** The routes registered with [@app.get]. *)
Inductive endpoint := Root | Health | Metadata | Ready.

Definition route (path : string) : option endpoint :=
  if String.eqb path "/" then Some Root
  else if String.eqb path "/health" then Some Health
  else if String.eqb path "/metadata" then Some Metadata
  else if String.eqb path "/ready" then Some Ready
  else None.

(** Running the handler of a route; its value is sent with status 200. *)
Definition call_endpoint (p : process) (os : OS) (ep : endpoint) : result response :=
  match ep with
  | Root => Ok {| status_code := 200; content := root p |}
  | Health =>
      h ← health_check p os ;
      Ok {| status_code := 200; content := HealthResponse_json h |}
  | Metadata =>
      m ← instance_metadata p os ;
      Ok {| status_code := 200; content := m |}
  | Ready => Ok {| status_code := 200; content := readiness_check |}
  end.

(** One [GET] request through the application: an exception raised by the
    handler is passed to the handler registered for [Exception].  [None]
    is a path that none of the module's routes matches. *)
Definition app (p : process) (os : OS) (path : string) : option response :=
  match route path with
  | None => None
  | Some ep =>
      Some match call_endpoint p os ep with
           | Ok r => r
           | Raise exc => global_exception_handler os exc
           end
  end.

(** One request as the server sees it: the answer that is sent and, for a
    handler that raised, the exception, which the error middleware raises
    again once the 500 answer is sent. *)
Definition dispatch (p : process) (os : OS) (path : string)
    : option (response * option exception) :=
  match route path with
  | None => None
  | Some ep =>
      Some match call_endpoint p os ep with
           | Ok r => (r, None)
           | Raise exc => (global_exception_handler os exc, Some exc)
           end
  end.

(** The server: the requests are answered one after the other by the same
    process; an exception that comes back from the application is logged
    and the next request is taken.  The result is the answers sent and the
    log. *)
Fixpoint serve (p : process) (requests : list (OS * string))
    : list (option response) * list exception :=
  match requests with
  | [] => ([], [])
  | (os, path) :: rest =>
      let '(answers, log) := serve p rest in
      match dispatch p os path with
      | None => (None :: answers, log)
      | Some (r, None) => (Some r :: answers, log)
      | Some (r, Some exc) => (Some r :: answers, exc :: log)
      end
  end.

(** Lookup of a field in a JSON object. *)
Fixpoint assoc (k : string) (l : list (string * json)) : option json :=
  match l with
  | [] => None
  | (k', v) :: rest => if String.eqb k k' then Some v else assoc k rest
  end.

Definition field (k : string) (j : json) : option json :=
  match j with
  | JObject l => assoc k l
  | _ => None
  end.

Definition keys (j : json) : list string :=
  match j with
  | JObject l => map fst l
  | _ => []
  end.

(** Strings all of whose characters satisfy [f]. *)
Fixpoint string_forall (f : Ascii.ascii → bool) (s : string) : bool :=
  match s with
  | EmptyString => true
  | String c rest => f c && string_forall f rest
  end.

Definition is_digit (c : Ascii.ascii) : bool :=
  let n := Ascii.nat_of_ascii c in
  (Nat.leb 48 n && Nat.leb n 57)%bool.


(** ** Sample inputs *)

(** 1730000000.0 and 1730000012.3456 (the nearest floats) *)
Definition t_start : float := S754_finite false 7256145920000000 (-22).
Definition t_later : float := S754_finite false 7256145971781199 (-22).

Definition sample_os : OS :=
  {| time_time := t_start;
     utc_fields := (2024, 10, 27, 3, 33, 20, 0)%N;
     socket_gethostname := Ok "web-1" |}.

Definition later_os : OS :=
  {| time_time := t_later;
     utc_fields := (2024, 10, 27, 3, 33, 32, 345600)%N;
     socket_gethostname := Ok "web-2" |}.

(** The string ['lookup failed'] as an exception argument. *)
Definition lookup_failed : pyobject :=
  {| py_str := "lookup failed"; py_repr := "'lookup failed'"; py_is_none := false |}.

(** A request during which the host name lookup fails. *)
Definition failing_os : OS :=
  {| time_time := t_later;
     utc_fields := (2024, 10, 27, 3, 33, 32, 345600)%N;
     socket_gethostname := Raise (new_exception OSError [lookup_failed]) |}.

(** A request during which the lookup fails with an exception that carries
    no message. *)
Definition silent_os : OS :=
  {| time_time := t_later;
     utc_fields := (2024, 10, 27, 3, 33, 32, 345600)%N;
     socket_gethostname := Raise (new_exception OSError []) |}.

Definition staging_environ : gmap string string :=
  <["ENVIRONMENT" := "staging"]> (<["CLOUD_PROVIDER" := "aws"]> ∅).

(** ** Further notions used in the statements *)

(** The path of each route, as given to its decorator. *)
Definition path_of (ep : endpoint) : string :=
  match ep with
  | Root => "/"
  | Health => "/health"
  | Metadata => "/metadata"
  | Ready => "/ready"
  end.

(** Whether the character [c] occurs in [s]. *)
Fixpoint occurs (c : Ascii.ascii) (s : string) : bool :=
  match s with
  | EmptyString => false
  | String x rest => Ascii.eqb c x || occurs c rest
  end.

(** The character [.] *)
Definition dot : Ascii.ascii := Ascii.ascii_of_nat 46.

Definition is_nan (x : float) : bool :=
  match x with
  | S754_nan => true
  | _ => false
  end.

(** The floats that carry the sign [s]: every float but NaN. *)
Definition has_sign (s : bool) (x : float) : Prop :=
  match x with
  | S754_zero s' | S754_infinity s' | S754_finite s' _ _ => s' = s
  | S754_nan => False
  end.


(** ** Exact values of floats, for the statements about order *)

(** The rounding code of a shift record: the mantissa followed by the
    round bit and the sticky bit. *)
Definition code (mrs : shr_record) : Z :=
  4 * shr_m mrs + 2 * Z.b2z (shr_r mrs) + Z.b2z (shr_s mrs).

(** Halving a rounding code: the lowest bit stays set once a one was shifted out. *)
Definition sticky_half (c : Z) : Z :=
  2 * (c / 4) + (if c mod 4 =? 0 then 0 else 1).

(** The rounding code of the quotient [N / W]. *)
Definition sticky (N W : Z) : Z :=
  2 * (2 * N / W) + (if (2 * N) mod W =? 0 then 0 else 1).

(** [2^1024], the first value too large for a finite binary64 number,
    counted in units of [2^-1074]. *)
Definition overflow_threshold : Z := 2 ^ 2098.

(** The value of a float in units of [2^-1074], the spacing of the
    smallest binary64 numbers; the infinities are placed at the overflow
    threshold, so that the order of the values is the order of the floats. *)
Definition units (x : float) : Z :=
  match x with
  | S754_zero _ => 0
  | S754_finite s m e => cond_Zopp s (Zpos m * 2 ^ (e + 1074))
  | S754_infinity s => cond_Zopp s overflow_threshold
  | S754_nan => 0
  end.

(** [N / D] units rounded to 53 significant bits, ties to even. *)
Definition nearest (N D : Z) : Z :=
  let k := Z.max (Zdigits2 (N / D) - 53) 0 in
  div_half_even N (D * 2 ^ k) * 2 ^ k.

(** The last step of [binary_round_aux]: a rounded mantissa is brought
    back to 53 bits and the exponent is checked for overflow. *)
Definition pack (s : bool) (m e : Z) : float :=
  let '(mrs, e') := shr_fexp prec emax m e loc_Exact in
  match shr_m mrs with
  | Z0 => S754_zero s
  | Zpos p => if e' <=? emax - prec then S754_finite s p e' else S754_infinity s
  | _ => S754_nan
  end.

(** The value [X / D] units rounded to a binary64 value (in units), the
    overflow threshold standing for the infinities. *)
Definition rounded (X D : Z) : Z :=
  Z.sgn X * Z.min (nearest (Z.abs X) D) overflow_threshold.

(** [round(x, 2)] on values: the units of [x] are turned into hundredths,
    ties to even, and the hundredths are rounded to a float. *)
Definition round_units (v : Z) : Z :=
  rounded (Z.sgn v * (div_half_even (100 * Z.abs v) (2 ^ 1074) * 2 ^ 1074)) 100.

(* ================================================================== *)
(** * Part IV: facts about the runtime model *)
(* ================================================================== *)

(** ** Strings produced by [isoformat] *)

Lemma string_forall_app f (a b : string) :
  string_forall f (a +:+ b) = string_forall f a && string_forall f b.
Proof.
  induction a as [|c a IH]; simpl; [done|].
  by rewrite IH, andb_assoc.
Qed.


Lemma digits_string_of_uint (u : Decimal.uint) :
  string_forall is_digit (NilZero.string_of_uint u) = true.
Proof.
  destruct u as [|u|u|u|u|u|u|u|u|u|u]; simpl; try done;
    induction u as [|u IH|u IH|u IH|u IH|u IH|u IH|u IH|u IH|u IH|u IH];
    simpl; done.
Qed.

Lemma digits_zeros (k : nat) : string_forall is_digit (zeros k) = true.
Proof. induction k as [|k IH]; simpl; done. Qed.

Lemma digits_zfill (w : nat) (n : N) : string_forall is_digit (zfill w n) = true.
Proof.
  unfold zfill, decimal.
  by rewrite string_forall_app, digits_zeros, digits_string_of_uint.
Qed.



Lemma utcnow_naive (os : OS) : tzinfo (datetime_utcnow os) = None.
Proof.
  unfold datetime_utcnow.
  by destruct (utc_fields os) as [[[[[[y mo] d] h] mi] s] us].
Qed.

Lemma string_app_empty_r (s : string) : s +:+ "" = s.
Proof.
  induction s as [|c s IH]; [done|].
  change (String c (s +:+ "") = String c s). by f_equal.
Qed.

Lemma string_app_assoc (a b c : string) : (a +:+ b) +:+ c = a +:+ (b +:+ c).
Proof.
  induction a as [|x a IH]; [done|].
  change (String x ((a +:+ b) +:+ c) = String x (a +:+ (b +:+ c))). by f_equal.
Qed.

Lemma isoformat_utcnow (os : OS) :
  isoformat (datetime_utcnow os)
  = format_date (datetime_utcnow os) +:+ "T" +:+ format_time (datetime_utcnow os).
Proof.
  unfold isoformat. rewrite utcnow_naive. unfold format_utcoffset.
  by rewrite string_app_empty_r.
Qed.

(** ** Handlers that return *)

Lemma health_check_inv (p : process) (os : OS) (h : HealthResponse) :
  health_check p os = Ok h →
  ∃ host, socket_gethostname os = Ok host ∧
    h = {| status := "healthy";
           timestamp := isoformat (datetime_utcnow os);
           hostname := host;
           environment := ENVIRONMENT p;
           cloud_provider := CLOUD_PROVIDER p;
           version := APP_VERSION p;
           uptime_seconds := round (float_sub (time_time os) (START_TIME p)) 2 |}.
Proof.
  unfold health_check. destruct (socket_gethostname os) as [host|exc]; simpl.
  - intros [= <-]. by exists host.
  - done.
Qed.

Lemma instance_metadata_inv (p : process) (os : OS) (m : json) :
  instance_metadata p os = Ok m →
  ∃ host, socket_gethostname os = Ok host ∧
    m = JObject [("hostname", JString host);
                 ("environment", JString (ENVIRONMENT p));
                 ("cloud_provider", JString (CLOUD_PROVIDER p));
                 ("version", JString (APP_VERSION p))].
Proof.
  unfold instance_metadata. destruct (socket_gethostname os) as [host|exc]; simpl.
  - intros [= <-]. by exists host.
  - done.
Qed.

Lemma health_check_returns (p : process) (os : OS) (host : string) :
  socket_gethostname os = Ok host → ∃ h, health_check p os = Ok h ∧ hostname h = host.
Proof. intros Hos. unfold health_check. rewrite Hos. simpl. by eexists. Qed.

Lemma instance_metadata_returns (p : process) (os : OS) (host : string) :
  socket_gethostname os = Ok host →
  ∃ m, instance_metadata p os = Ok m ∧ field "hostname" m = Some (JString host).
Proof. intros Hos. unfold instance_metadata. rewrite Hos. simpl. by eexists. Qed.

(** ** The server loop *)

Lemma app_dispatch (p : process) (os : OS) (path : string) :
  app p os path = fst <$> dispatch p os path.
Proof.
  unfold app, dispatch. destruct (route path) as [ep|]; [|done].
  by destruct (call_endpoint p os ep).
Qed.

(** The answers to a sequence of requests are the answers to its parts. *)
Lemma serve_answers_app (p : process) (before after : list (OS * string)) :
  (serve p (before ++ after)).1 = (serve p before).1 ++ (serve p after).1.
Proof.
  induction before as [|[os path] before IH]; [done|].
  change (((os, path) :: before) ++ after) with ((os, path) :: (before ++ after)).
  cbn [serve].
  destruct (serve p (before ++ after)) as [answers log].
  destruct (serve p before) as [answers' log']. cbn [fst] in IH. subst answers.
  by destruct (dispatch p os path) as [[r [exc|]]|].
Qed.

Lemma dispatch_health (p : process) (os : OS) :
  dispatch p os "/health"
  = Some match health_check p os with
         | Ok h => ({| status_code := 200; content := HealthResponse_json h |}, None)
         | Raise exc => (global_exception_handler os exc, Some exc)
         end.
Proof.
  unfold dispatch. change (route "/health") with (Some Health).
  cbn [call_endpoint]. by destruct (health_check p os).
Qed.

(** ** Routes *)

Lemma route_path_of (ep : endpoint) : route (path_of ep) = Some ep.
Proof. by destruct ep. Qed.

Lemma route_inv (path : string) (ep : endpoint) :
  route path = Some ep → path = path_of ep.
Proof.
  unfold route.
  destruct (String.eqb_spec path "/") as [->|_]; [by intros [= <-]|].
  destruct (String.eqb_spec path "/health") as [->|_]; [by intros [= <-]|].
  destruct (String.eqb_spec path "/metadata") as [->|_]; [by intros [= <-]|].
  destruct (String.eqb_spec path "/ready") as [->|_]; [by intros [= <-]|].
  done.
Qed.

(** ** Characters of a timestamp *)

Lemma occurs_app (c : Ascii.ascii) (a b : string) :
  occurs c (a +:+ b) = occurs c a || occurs c b.
Proof.
  induction a as [|x a IH]; [done|].
  change (occurs c (String x (a +:+ b)) = occurs c (String x a) || occurs c b).
  simpl. by rewrite IH, orb_assoc.
Qed.

Lemma occurs_dot_digits (s : string) :
  string_forall is_digit s = true → occurs dot s = false.
Proof.
  induction s as [|x s IH]; cbn [occurs string_forall]; [done|].
  intros [Hx Hs]%andb_prop. rewrite (IH Hs), orb_false_r.
  destruct (Ascii.eqb_spec dot x) as [<-|Hne]; [by vm_compute in Hx|done].
Qed.

Lemma occurs_dot_zfill (w : nat) (n : N) : occurs dot (zfill w n) = false.
Proof. apply occurs_dot_digits, digits_zfill. Qed.

Lemma occurs_dot_format_date (dt : datetime) : occurs dot (format_date dt) = false.
Proof.
  unfold format_date. by rewrite !occurs_app, !occurs_dot_zfill.
Qed.

Lemma occurs_dot_format_time (dt : datetime) :
  occurs dot (format_time dt) = negb (N.eqb (microsecond dt) 0).
Proof.
  unfold format_time. rewrite !occurs_app, !occurs_dot_zfill.
  destruct (N.eqb (microsecond dt) 0); [done|].
  by rewrite occurs_app.
Qed.

(** ** Signs of float results *)

Lemma float_sub_diag (x : float) :
  is_finite x = true → float_sub x x = S754_zero false.
Proof.
  destruct x as [[]|s| |s m e]; try done. intros _.
  unfold float_sub, SFsub. cbv zeta. by rewrite Z.sub_diag.
Qed.

Lemma digits2_pos_size (p : positive) : digits2_pos p = Pos.size p.
Proof. induction p as [p IH|p IH|]; simpl; by rewrite ?IH. Qed.

Lemma digits2_pos_bounds (m : positive) :
  2 ^ (Zpos (digits2_pos m) - 1) <= Zpos m < 2 ^ Zpos (digits2_pos m).
Proof.
  rewrite digits2_pos_size.
  assert (H := Z.log2_spec (Zpos m) ltac:(lia)).
  assert (E : Z.pos (Pos.size m) = Z.succ (Z.log2 (Zpos m))).
  { destruct m; simpl; lia. }
  rewrite E. replace (Z.succ (Z.log2 (Z.pos m)) - 1) with (Z.log2 (Z.pos m)) by lia.
  exact H.
Qed.

Lemma shr_1_nonneg (mrs : shr_record) : 0 <= shr_m mrs → 0 <= shr_m (shr_1 mrs).
Proof. destruct mrs as [m r s]. destruct m as [|[p|p|]|p]; simpl; lia. Qed.

Lemma iter_pos_inv {A} (P : A → Prop) (f : A → A) :
  (∀ x, P x → P (f x)) → ∀ p x, P x → P (iter_pos f p x).
Proof. intros Hf. induction p as [p IH|p IH|]; intros x Hx; simpl; auto. Qed.

Lemma shr_nonneg (mrs : shr_record) (e n : Z) :
  0 <= shr_m mrs → 0 <= shr_m (shr mrs e n).1.
Proof.
  intros Hm. destruct n as [|p|p]; simpl; try done.
  by apply (iter_pos_inv (λ r, 0 <= shr_m r)); [apply shr_1_nonneg|].
Qed.

Lemma shr_fexp_nonneg (m e : Z) (l : location) :
  0 <= m → 0 <= shr_m (shr_fexp prec emax m e l).1.
Proof.
  intros Hm. unfold shr_fexp. apply shr_nonneg.
  by destruct l as [|[]].
Qed.

Lemma round_nearest_even_nonneg (m : Z) (l : location) :
  0 <= m → 0 <= round_nearest_even m l.
Proof.
  intros Hm. destruct l as [|[]]; simpl; try lia.
  destruct (Z.even m); lia.
Qed.

(** Rounding a non-negative mantissa keeps the sign and gives no NaN. *)
Lemma binary_round_aux_sign (s : bool) (mx ex : Z) (lx : location) :
  0 <= mx → has_sign s (binary_round_aux prec emax s mx ex lx).
Proof.
  intros Hm. unfold binary_round_aux.
  pose proof (shr_fexp_nonneg mx ex lx Hm) as H1.
  destruct (shr_fexp prec emax mx ex lx) as [mrs' e']. cbn [fst] in H1.
  pose proof (shr_fexp_nonneg _ e' loc_Exact
                (round_nearest_even_nonneg _ (loc_of_shr_record mrs') H1)) as H2.
  destruct (shr_fexp prec emax _ e' loc_Exact) as [mrs'' e'']. cbn [fst] in H2.
  destruct (shr_m mrs'') as [|m|m]; [done| |lia].
  by destruct (e'' <=? emax - prec).
Qed.

Lemma binary_round_sign (s : bool) (mx : positive) (ex : Z) :
  has_sign s (binary_round prec emax s mx ex).
Proof.
  unfold binary_round. destruct (shl_align mx ex _) as [mz ez].
  by apply binary_round_aux_sign.
Qed.

Lemma div_half_even_nonneg (a b : Z) : 0 <= a → 0 < b → 0 <= div_half_even a b.
Proof.
  intros Ha Hb. unfold div_half_even.
  assert (0 <= a / b) by (apply Z.div_pos; lia).
  destruct (2 * (a mod b) ?= b); [|lia|lia].
  destruct (Z.even (a / b)); lia.
Qed.

Lemma scaled_half_even_nonneg (m : positive) (e scale : Z) :
  0 < scale → 0 <= scaled_half_even m e scale.
Proof.
  intros Hs. unfold scaled_half_even. destruct e as [|k|k].
  - simpl. lia.
  - assert (0 < 2 ^ Z.pos k) by (apply Z.pow_pos_nonneg; lia). nia.
  - apply div_half_even_nonneg; [lia|]. apply Z.pow_pos_nonneg; lia.
Qed.

Lemma float_of_ratio_sign (s : bool) (n d : Z) :
  0 <= n → 0 < d → has_sign s (float_of_ratio s n d).
Proof.
  intros Hn Hd. unfold float_of_ratio, SFdiv_core_binary. cbv zeta.
  match goal with |- context [Z.div_eucl ?a d] =>
    assert (Ha : 0 <= a); [|pose proof (Z.div_pos a d Ha Hd) as Hq;
                            unfold Z.div in Hq; destruct (Z.div_eucl a d) as [q r]]
  end.
  - match goal with |- 0 <= match ?x with _ => _ end => destruct x as [|k|k] end;
      [lia| |lia].
    apply Z.shiftl_nonneg. lia.
  - by apply binary_round_aux_sign.
Qed.

(** [round(x, 2)] keeps the sign of [x] and makes no NaN of a number. *)
Lemma round_sign (s : bool) (x : float) :
  has_sign s x → has_sign s (round x 2).
Proof.
  destruct x as [s'|s'| |s' m e]; try done. simpl has_sign. intros ->.
  unfold round. change (10 ^ Z.of_nat 2) with 100.
  pose proof (scaled_half_even_nonneg m e 100 ltac:(lia)) as Hn.
  destruct (scaled_half_even m e 100 =? 0); [done|].
  by apply float_of_ratio_sign.
Qed.

Lemma binary_normalize_sign (m e : Z) :
  ∃ s, has_sign s (binary_normalize prec emax m e false) ∧
    (0 <= m → s = false) ∧ (m < 0 → s = true).
Proof.
  destruct m as [|p|p]; simpl.
  - exists false. split; [done|]. split; [done|lia].
  - exists false. split; [apply binary_round_sign|]. split; [done|lia].
  - exists true. split; [apply binary_round_sign|]. split; [lia|done].
Qed.

Lemma float_sub_sign (x y : float) :
  is_finite x = true → is_finite y = true → ∃ s, has_sign s (float_sub x y).
Proof.
  destruct x as [sx|sx| |sx mx ex], y as [sy|sy| |sy my ey]; try done; intros _ _.
  - destruct sx, sy; by eexists.
  - by eexists.
  - by eexists.
  - unfold float_sub, SFsub. cbv zeta.
    destruct (binary_normalize_sign
      (cond_Zopp sx (Zpos (shl_align mx ex (Z.min ex ey)).1)
       - cond_Zopp sy (Zpos (shl_align my ey (Z.min ex ey)).1)) (Z.min ex ey))
      as (s & Hs & _ & _).
    by exists s.
Qed.

(** ** Clock readings in order *)

Lemma bounded_inv (m : positive) (e : Z) :
  bounded prec emax m e = true →
  -1074 <= e ∧ Zpos m < 2 ^ 53 ∧ (-1074 < e → 2 ^ 52 <= Zpos m).
Proof.
  unfold bounded, canonical_mantissa, fexp, SpecFloat.emin, prec, emax.
  intros [Hc _]%andb_prop. apply Z.eqb_eq in Hc.
  destruct (digits2_pos_bounds m) as [Hlo Hhi].
  set (d := Z.pos (digits2_pos m)) in *.
  assert (Hd : 0 < d) by (unfold d; lia).
  split; [lia|]. split.
  - assert (2 ^ d <= 2 ^ 53) by (apply Z.pow_le_mono_r; lia). lia.
  - intros He. assert (d = 53) as Hd53 by lia.
    rewrite Hd53 in Hlo. exact Hlo.
Qed.

Lemma Pos_iter_xO (m d : positive) :
  Zpos (Pos.iter xO m d) = Zpos m * 2 ^ Zpos d.
Proof.
  induction d as [|d IH] using Pos.peano_ind.
  - simpl. lia.
  - rewrite Pos.iter_succ, Pos2Z.inj_xO, IH, Pos2Z.inj_succ, Z.pow_succ_r by lia. ring.
Qed.

Lemma shl_align_fst (mx : positive) (ex ez : Z) :
  ez <= ex → Zpos (shl_align mx ex ez).1 = Zpos mx * 2 ^ (ex - ez).
Proof.
  intros Hle. unfold shl_align.
  destruct (ez - ex) as [|d|d] eqn:E; cbn [fst].
  - replace (ex - ez) with 0 by lia. simpl. lia.
  - lia.
  - replace (ex - ez) with (Zpos d) by lia. apply Pos_iter_xO.
Qed.

(** Of two positive numbers in normal form, the one with the larger exponent is larger. *)
Lemma larger_exponent (m1 m2 : positive) (e1 e2 : Z) :
  bounded prec emax m1 e1 = true → bounded prec emax m2 e2 = true →
  e1 < e2 → Zpos m1 <= Zpos m2 * 2 ^ (e2 - e1).
Proof.
  intros (L1 & U1 & _)%bounded_inv (L2 & _ & N2)%bounded_inv Hlt.
  assert (2 ^ 1 <= 2 ^ (e2 - e1)) as Hp by (apply Z.pow_le_mono_r; lia).
  change (2 ^ 1) with 2 in Hp.
  assert (2 ^ 52 * 2 <= Zpos m2 * 2 ^ (e2 - e1)).
  { apply Z.mul_le_mono_nonneg; lia. }
  change (2 ^ 52 * 2) with (2 ^ 53) in *. lia.
Qed.

(** The exact difference formed by [float_sub] is not negative when the
    second operand is not the greater one. *)
Lemma difference_nonneg (sx sy : bool) (mx my : positive) (ex ey : Z) :
  bounded prec emax mx ex = true → bounded prec emax my ey = true →
  float_le (S754_finite sy my ey) (S754_finite sx mx ex) = true →
  0 <= cond_Zopp sx (Zpos (shl_align mx ex (Z.min ex ey)).1)
       - cond_Zopp sy (Zpos (shl_align my ey (Z.min ex ey)).1).
Proof.
  intros Bx By Hle.
  rewrite !shl_align_fst by lia.
  assert (Px : 0 < 2 ^ (ex - Z.min ex ey)) by (apply Z.pow_pos_nonneg; lia).
  assert (Py : 0 < 2 ^ (ey - Z.min ex ey)) by (apply Z.pow_pos_nonneg; lia).
  unfold float_le, SFleb, SFcompare in Hle.
  destruct sy, sx; simpl cond_Zopp; try done; [| nia |].
  - (* both negative *)
    destruct (Z.compare_spec ey ex) as [->|Hlt|Hgt]; [| done |].
    + rewrite Z.min_id, Z.sub_diag. simpl (2 ^ 0).
      change (Pos.compare_cont Eq my mx) with (my ?= mx)%positive in Hle.
      destruct (Pos.compare_spec my mx) as [->|?|?]; simpl in Hle; try done; lia.
    + pose proof (larger_exponent mx my ex ey Bx By ltac:(lia)) as H.
      replace (Z.min ex ey) with ex by lia. rewrite Z.sub_diag. simpl (2 ^ 0). lia.
  - (* both non-negative *)
    destruct (Z.compare_spec ey ex) as [->|Hlt|Hgt]; [| | done].
    + rewrite Z.min_id, Z.sub_diag. simpl (2 ^ 0).
      change (Pos.compare_cont Eq my mx) with (my ?= mx)%positive in Hle.
      destruct (Pos.compare_spec my mx) as [->|?|?]; simpl in Hle; try done; lia.
    + pose proof (larger_exponent my mx ey ex By Bx ltac:(lia)) as H.
      replace (Z.min ex ey) with ey by lia. rewrite Z.sub_diag. simpl (2 ^ 0). lia.
Qed.

Lemma float_sub_nonneg (x y : float) :
  clock_value x → clock_value y → float_le y x = true →
  (∃ s, float_sub x y = S754_zero s) ∨ has_sign false (float_sub x y).
Proof.
  intros [Fx Vx] [Fy Vy] Hle.
  destruct x as [sx|sx| |sx mx ex], y as [sy|sy| |sy my ey]; try done.
  - left. destruct sx, sy; by eexists.
  - right. by destruct sy.
  - right. by destruct sx.
  - right. unfold float_sub, SFsub. cbv zeta.
    pose proof (difference_nonneg sx sy mx my ex ey Vx Vy Hle) as Hd.
    destruct (binary_normalize_sign
      (cond_Zopp sx (Zpos (shl_align mx ex (Z.min ex ey)).1)
       - cond_Zopp sy (Zpos (shl_align my ey (Z.min ex ey)).1)) (Z.min ex ey))
      as (s & Hs & Hpos & _).
    by rewrite (Hpos Hd) in Hs.
Qed.

(** The same, with the operands exchanged: when the first operand is not
    the greater one, the difference is a zero or negative. *)
Lemma float_sub_nonpos (x y : float) :
  clock_value x → clock_value y → float_le x y = true →
  (∃ s, float_sub x y = S754_zero s) ∨ has_sign true (float_sub x y).
Proof.
  intros [Fx Vx] [Fy Vy] Hle.
  destruct x as [sx|sx| |sx mx ex], y as [sy|sy| |sy my ey]; try done.
  - left. destruct sx, sy; by eexists.
  - right. by destruct sy.
  - right. by destruct sx.
  - unfold float_sub, SFsub. cbv zeta.
    pose proof (difference_nonneg sy sx my mx ey ex Vy Vx Hle) as Hd.
    rewrite (Z.min_comm ey ex) in Hd.
    destruct (binary_normalize_sign
      (cond_Zopp sx (Zpos (shl_align mx ex (Z.min ex ey)).1)
       - cond_Zopp sy (Zpos (shl_align my ey (Z.min ex ey)).1)) (Z.min ex ey))
      as (s & Hs & _ & Hneg).
    destruct (Z.eq_dec
      (cond_Zopp sx (Zpos (shl_align mx ex (Z.min ex ey)).1)
       - cond_Zopp sy (Zpos (shl_align my ey (Z.min ex ey)).1)) 0) as [E|E].
    + left. rewrite E. by exists false.
    + right. rewrite Hneg in Hs by lia. exact Hs.
Qed.

(** ** Rounding to nearest: what [binary_round_aux] computes *)

Lemma div_mod_eq (a b q r : Z) :
  0 <= r < b → a = b * q + r → a / b = q ∧ a mod b = r.
Proof.
  intros Hr ->. split.
  - symmetry. by apply (Z.div_unique_pos _ _ q r).
  - symmetry. by apply (Z.mod_unique_pos _ _ q r).
Qed.

Lemma shr_1_spec (m : Z) (r s : bool) :
  0 <= m →
  shr_1 (Build_shr_record m r s) = Build_shr_record (m / 2) (Z.odd m) (r || s).
Proof.
  intros Hm. rewrite <- Z.div2_div.
  destruct m as [|[p|p|]|p]; try lia; reflexivity.
Qed.

Lemma sticky_half_code (q : Z) (o r s : bool) :
  sticky_half (4 * (2 * q + Z.b2z o) + 2 * Z.b2z r + Z.b2z s)
  = 4 * q + 2 * Z.b2z o + Z.b2z (r || s).
Proof.
  unfold sticky_half.
  destruct o, r, s; cbn [Z.b2z orb];
    match goal with |- context [?c mod 4 =? 0] => destruct (Z.eqb_spec (c mod 4) 0) end;
    Z.div_mod_to_equations; lia.
Qed.

Lemma code_shr_1 (mrs : shr_record) :
  0 <= shr_m mrs → code (shr_1 mrs) = sticky_half (code mrs).
Proof.
  destruct mrs as [m r s]. cbn [shr_m]. intros Hm.
  rewrite shr_1_spec by done. unfold code. cbn [shr_m shr_r shr_s].
  rewrite (Z.div2_odd m) at 3. rewrite Z.div2_div.
  by rewrite sticky_half_code.
Qed.

Lemma iter_pos_nat {A} (f : A → A) (p : positive) (x : A) :
  iter_pos f p x = Nat.iter (Pos.to_nat p) f x.
Proof.
  revert x. induction p as [p IH|p IH|]; intros x; cbn [iter_pos].
  - rewrite !IH, Pos2Nat.inj_xI.
    replace (S (2 * Pos.to_nat p))%nat with (Pos.to_nat p + S (Pos.to_nat p))%nat by lia.
    rewrite Nat.iter_add. f_equal. by rewrite Nat.iter_succ_r.
  - rewrite !IH, Pos2Nat.inj_xO.
    replace (2 * Pos.to_nat p)%nat with (Pos.to_nat p + Pos.to_nat p)%nat by lia.
    by rewrite Nat.iter_add.
  - done.
Qed.

Lemma code_nonneg (mrs : shr_record) : 0 <= shr_m mrs → 0 <= code mrs.
Proof. destruct mrs as [m [] []]; unfold code; cbn; lia. Qed.

Lemma shr_m_code (mrs : shr_record) : shr_m mrs = code mrs / 4.
Proof.
  destruct mrs as [m r s]; unfold code; cbn [shr_m shr_r shr_s].
  symmetry. apply (div_mod_eq _ 4 m (2 * Z.b2z r + Z.b2z s)); [|lia].
  destruct r, s; cbn; lia.
Qed.

Lemma sticky_half_nonneg (c : Z) : 0 <= c → 0 <= sticky_half c.
Proof.
  intros Hc. unfold sticky_half.
  assert (0 <= c / 4) by (apply Z.div_pos; lia).
  destruct (c mod 4 =? 0); lia.
Qed.

Lemma sticky_half_2 (q : Z) (o s : bool) :
  sticky_half (2 * (2 * q + Z.b2z o) + Z.b2z s) = 2 * q + Z.b2z (o || s).
Proof.
  unfold sticky_half.
  destruct o, s; cbn [Z.b2z orb];
    match goal with |- context [?c mod 4 =? 0] => destruct (Z.eqb_spec (c mod 4) 0) end;
    Z.div_mod_to_equations; lia.
Qed.

Lemma sticky_double (N W : Z) :
  0 < W → sticky N (2 * W) = sticky_half (sticky N W).
Proof.
  intros HW. unfold sticky.
  pose proof (Z.div_mod (2 * N) W ltac:(lia)) as E.
  pose proof (Z.mod_pos_bound (2 * N) W HW) as B.
  set (a := 2 * N / W) in *. set (b := (2 * N) mod W) in *.
  pose proof (Z.div2_odd a) as Ea. rewrite Z.div2_div in Ea.
  set (q := a / 2) in *. set (o := Z.odd a) in *.
  assert (Hr : 0 <= W * Z.b2z o + b < 2 * W)
    by (destruct o; cbn [Z.b2z]; lia).
  destruct (div_mod_eq (2 * N) (2 * W) q (W * Z.b2z o + b) Hr) as [-> ->].
  { rewrite E, Ea. ring. }
  replace (2 * a + (if b =? 0 then 0 else 1))
    with (2 * (2 * q + Z.b2z o) + Z.b2z (negb (b =? 0)))
    by (destruct (b =? 0); cbn [Z.b2z negb]; lia).
  rewrite sticky_half_2. f_equal.
  destruct o, (Z.eqb_spec b 0) as [Hb|Hb]; cbn [Z.b2z negb orb];
    match goal with |- context [?c =? 0] => destruct (Z.eqb_spec c 0) end;
    lia.
Qed.

(** Shifting right by [n] bits, on the rounding code. *)
Lemma code_iter_shr_1 (n : nat) (mrs : shr_record) (N W : Z) :
  0 < W → 0 <= shr_m mrs → code mrs = sticky N W →
  0 <= shr_m (Nat.iter n shr_1 mrs) ∧
  code (Nat.iter n shr_1 mrs) = sticky N (W * 2 ^ Z.of_nat n).
Proof.
  intros HW Hm Hc. induction n as [|n [IHm IHc]].
  - change (Nat.iter 0 shr_1 mrs) with mrs. split; [done|]. by rewrite Z.mul_1_r.
  - change (Nat.iter (S n) shr_1 mrs) with (shr_1 (Nat.iter n shr_1 mrs)).
    set (r := Nat.iter n shr_1 mrs) in *.
    assert (Hcode : code (shr_1 r) = sticky N (W * 2 ^ Z.of_nat (S n))).
    { rewrite code_shr_1, IHc by done.
      rewrite <- sticky_double by (apply Z.mul_pos_pos; [done|apply Z.pow_pos_nonneg; lia]).
      f_equal. rewrite Nat2Z.inj_succ, Z.pow_succ_r by lia. ring. }
    split; [|done].
    rewrite shr_m_code. rewrite (code_shr_1 r IHm).
    apply Z.div_pos; [|lia]. apply sticky_half_nonneg. by apply code_nonneg.
Qed.

Lemma shr_code (mrs : shr_record) (e n : Z) (N W : Z) :
  0 < W → 0 <= shr_m mrs → 0 <= n → code mrs = sticky N W →
  ∃ mrs', shr mrs e n = (mrs', e + n) ∧
    0 <= shr_m mrs' ∧ code mrs' = sticky N (W * 2 ^ n).
Proof.
  intros HW Hm Hn Hc. destruct n as [|p|p]; [| |lia].
  - exists mrs. cbn [shr]. rewrite Z.add_0_r, Z.mul_1_r. done.
  - exists (iter_pos shr_1 p mrs). split; [done|].
    rewrite iter_pos_nat.
    destruct (code_iter_shr_1 (Pos.to_nat p) mrs N W HW Hm Hc) as [H1 H2].
    split; [done|]. by rewrite H2, positive_nat_Z.
Qed.

Lemma fexp_eq (e : Z) : fexp prec emax e = Z.max (e - 53) (-1074).
Proof. reflexivity. Qed.

Lemma Zdigits2_bounds (z : Z) :
  0 < z → 2 ^ (Zdigits2 z - 1) <= z < 2 ^ Zdigits2 z.
Proof.
  intros Hz. destruct z as [|p|p]; try lia. apply digits2_pos_bounds.
Qed.

Lemma Zdigits2_pos (z : Z) : 0 < z → 0 < Zdigits2 z.
Proof. destruct z; simpl; lia. Qed.

Lemma Zdigits2_nonneg (z : Z) : 0 <= Zdigits2 z.
Proof. destruct z; simpl; lia. Qed.

Lemma Zdigits2_unique (z d : Z) :
  2 ^ (d - 1) <= z < 2 ^ d → 0 < d → Zdigits2 z = d.
Proof.
  intros [Hlo Hhi] Hd.
  assert (Hz : 0 < z) by (pose proof (Z.pow_pos_nonneg 2 (d - 1)); lia).
  destruct (Zdigits2_bounds z Hz) as [Blo Bhi].
  pose proof (Zdigits2_pos z Hz) as Hp.
  destruct (Z.lt_trichotomy (Zdigits2 z) d) as [Hlt|[Heq|Hgt]]; [|done|].
  - assert (2 ^ Zdigits2 z <= 2 ^ (d - 1)) by (apply Z.pow_le_mono_r; lia). lia.
  - assert (2 ^ d <= 2 ^ (Zdigits2 z - 1)) by (apply Z.pow_le_mono_r; lia). lia.
Qed.

Lemma Zdigits2_le (z n : Z) : 0 <= n → 0 <= z < 2 ^ n → Zdigits2 z <= n.
Proof.
  intros Hn [Hz Hlt].
  destruct (Z.eq_dec z 0) as [->|Hne]; [simpl; lia|].
  destruct (Zdigits2_bounds z) as [Blo _]; [lia|].
  destruct (Z.le_gt_cases (Zdigits2 z) n) as [|Hgt]; [done|].
  assert (2 ^ n <= 2 ^ (Zdigits2 z - 1)) by (apply Z.pow_le_mono_r; lia). lia.
Qed.

Lemma Zdigits2_mono (a b : Z) : 0 <= a <= b → Zdigits2 a <= Zdigits2 b.
Proof.
  intros [Ha Hab].
  destruct (Z.eq_dec b 0) as [->|Hne].
  { replace a with 0 by lia. done. }
  destruct (Zdigits2_bounds b) as [_ Bhi]; [lia|].
  apply Zdigits2_le; [apply Zdigits2_nonneg|lia].
Qed.

(** Dropping [n] low bits drops [n] digits, as long as something is left. *)
Lemma Zdigits2_div_pow2 (z n : Z) :
  0 <= n → 2 ^ n <= z → Zdigits2 (z / 2 ^ n) = Zdigits2 z - n.
Proof.
  intros Hn Hz.
  assert (Hp : 0 < 2 ^ n) by (apply Z.pow_pos_nonneg; lia).
  destruct (Zdigits2_bounds z) as [Blo Bhi]; [lia|].
  assert (Hd : n < Zdigits2 z).
  { destruct (Z.le_gt_cases (Zdigits2 z) n) as [Hle|]; [|done].
    assert (2 ^ Zdigits2 z <= 2 ^ n) by (apply Z.pow_le_mono_r; lia). lia. }
  apply Zdigits2_unique; [|lia]. split.
  - apply Z.div_le_lower_bound; [done|].
    rewrite <- Z.pow_add_r by lia.
    by replace (n + (Zdigits2 z - n - 1)) with (Zdigits2 z - 1) by lia.
  - apply Z.div_lt_upper_bound; [done|].
    rewrite <- Z.pow_add_r by lia.
    by replace (n + (Zdigits2 z - n)) with (Zdigits2 z) by lia.
Qed.

Lemma div_half_even_bounds (a b : Z) :
  0 < b → a / b <= div_half_even a b <= a / b + 1.
Proof.
  intros Hb. unfold div_half_even.
  destruct (2 * (a mod b) ?= b); [|lia|lia].
  destruct (Z.even (a / b)); lia.
Qed.

(** What a rounding code says about the quotient it stands for. *)
Lemma rne_of_code (mrs : shr_record) (N W : Z) :
  0 < W → code mrs = sticky N W →
  shr_m mrs = N / W ∧
  round_nearest_even (shr_m mrs) (loc_of_shr_record mrs) = div_half_even N W.
Proof.
  intros HW. destruct mrs as [m r s]. unfold code, sticky, div_half_even.
  cbn [shr_m shr_r shr_s].
  pose proof (Z.div_mod N W ltac:(lia)) as E.
  pose proof (Z.mod_pos_bound N W HW) as B.
  set (q := N / W) in *. set (rem := N mod W) in *.
  destruct (Z_lt_le_dec (2 * rem) W) as [Hlt|Hge].
  - destruct (div_mod_eq (2 * N) W (2 * q) (2 * rem)) as [-> ->]; [lia|lia|].
    assert ((2 * rem ?= W) = Lt) as -> by (by apply Z.compare_lt_iff).
    destruct r, s, (Z.eqb_spec (2 * rem) 0); cbn [Z.b2z]; intros Hc;
      try (exfalso; lia);
      (split; [lia|]); cbn [loc_of_shr_record round_nearest_even]; lia.
  - destruct (div_mod_eq (2 * N) W (2 * q + 1) (2 * rem - W)) as [-> ->]; [lia|lia|].
    destruct r, s, (Z.eqb_spec (2 * rem - W) 0); cbn [Z.b2z]; intros Hc;
      try (exfalso; lia);
      (split; [lia|]); assert (m = q) as -> by lia;
      cbn [loc_of_shr_record round_nearest_even].
    + assert ((2 * rem ?= W) = Gt) as -> by (apply Z.compare_gt_iff; lia). done.
    + assert ((2 * rem ?= W) = Eq) as -> by (apply Z.compare_eq_iff; lia). done.
Qed.

Lemma binary_round_aux_pack (s : bool) (mx ex : Z) (lx : location) :
  binary_round_aux prec emax s mx ex lx
  = pack s (round_nearest_even (shr_m (shr_fexp prec emax mx ex lx).1)
              (loc_of_shr_record (shr_fexp prec emax mx ex lx).1))
      (shr_fexp prec emax mx ex lx).2.
Proof.
  unfold binary_round_aux, pack.
  by destruct (shr_fexp prec emax mx ex lx) as [mrs' e'].
Qed.

Lemma threshold_split : overflow_threshold = 2 ^ 53 * 2 ^ 2045.
Proof. unfold overflow_threshold. by rewrite <- Z.pow_add_r by lia. Qed.

(** A mantissa of at most 53 bits in normal form is packed as it is. *)
Lemma pack_canonical (s : bool) (m e : Z) :
  0 < m < 2 ^ 53 → -1074 <= e → (e = -1074 ∨ 2 ^ 52 <= m) →
  valid_binary prec emax (pack s m e) = true ∧
  has_sign s (pack s m e) ∧
  units (pack s m e) = cond_Zopp s (Z.min (m * 2 ^ (e + 1074)) overflow_threshold).
Proof.
  intros [Hm Hlt] He Hnorm.
  assert (Hd : Zdigits2 m <= 53) by (apply Zdigits2_le; lia).
  assert (Hd' : e = -1074 ∨ Zdigits2 m = 53).
  { destruct Hnorm as [|H52]; [by left|right].
    apply Zdigits2_unique; [|lia]. by split. }
  pose proof (Zdigits2_pos m Hm) as Hdp.
  unfold pack, shr_fexp. rewrite fexp_eq.
  replace (Z.max (Zdigits2 m + e - 53) (-1074) - e) with 0 by lia.
  cbn [shr shr_record_of_loc shr_m].
  destruct m as [|p|p]; try lia.
  change (emax - prec) with 971.
  assert (HP : 0 < 2 ^ (e + 1074)) by (apply Z.pow_pos_nonneg; lia).
  destruct (Z.leb_spec e 971) as [Hle|Hgt].
  - split; [|split; [done|]].
    + cbn [valid_binary]. unfold bounded, canonical_mantissa. rewrite fexp_eq.
      change (Z.pos (digits2_pos p)) with (Zdigits2 (Zpos p)).
      change (emax - prec) with 971.
      apply andb_true_intro. split; [apply Z.eqb_eq|apply Z.leb_le]; lia.
    + cbn [units]. f_equal. rewrite Z.min_l; [done|].
      rewrite threshold_split.
      assert (2 ^ (e + 1074) <= 2 ^ 2045) by (apply Z.pow_le_mono_r; lia).
      assert (Zpos p * 2 ^ (e + 1074) <= Zpos p * 2 ^ 2045)
        by (apply Z.mul_le_mono_nonneg_l; lia).
      assert (Zpos p * 2 ^ 2045 < 2 ^ 53 * 2 ^ 2045)
        by (apply Z.mul_lt_mono_pos_r; [apply Z.pow_pos_nonneg|]; lia).
      lia.
  - split; [done|]. split; [done|].
    cbn [units]. f_equal. rewrite Z.min_r; [done|].
    assert (H52 : 2 ^ 52 <= Zpos p) by (destruct Hnorm; [lia|done]).
    assert (2 ^ 2046 <= 2 ^ (e + 1074)) by (apply Z.pow_le_mono_r; lia).
    replace overflow_threshold with (2 ^ 52 * 2 ^ 2046)
      by (unfold overflow_threshold; by rewrite <- Z.pow_add_r by lia).
    apply Z.mul_le_mono_nonneg; lia.
Qed.

(** A mantissa that was rounded up to [2^53] is packed one exponent higher. *)
Lemma pack_carry (s : bool) (e : Z) :
  -1074 <= e →
  valid_binary prec emax (pack s (2 ^ 53) e) = true ∧
  has_sign s (pack s (2 ^ 53) e) ∧
  units (pack s (2 ^ 53) e)
  = cond_Zopp s (Z.min (2 ^ 53 * 2 ^ (e + 1074)) overflow_threshold).
Proof.
  intros He.
  assert (E : pack s (2 ^ 53) e = pack s (2 ^ 52) (e + 1)).
  { unfold pack, shr_fexp. rewrite !fexp_eq.
    change (Zdigits2 (2 ^ 53)) with 54. change (Zdigits2 (2 ^ 52)) with 53.
    replace (Z.max (54 + e - 53) (-1074) - e) with 1 by lia.
    replace (Z.max (53 + (e + 1) - 53) (-1074) - (e + 1)) with 0 by lia.
    reflexivity. }
  rewrite E.
  destruct (pack_canonical s (2 ^ 52) (e + 1)) as (V & S & U); [lia|lia|right; lia|].
  split; [done|]. split; [done|]. rewrite U. do 2 f_equal.
  replace (e + 1 + 1074) with (Z.succ (e + 1074)) by lia.
  rewrite Z.pow_succ_r by lia. change (2 ^ 53) with (2 ^ 52 * 2). ring.
Qed.

Lemma shr_m_of_loc (m : Z) (l : location) : shr_m (shr_record_of_loc m l) = m.
Proof. by destruct l as [|[]]. Qed.

(** [binary_round_aux] rounds to nearest, ties to even: given a mantissa
    [mx] at exponent [ex] with location [lx] that stand for the positive
    rational [N / D] units, with enough bits to round from, the result is
    a float in normal form (or an infinity) whose value is [nearest N D]. *)
Lemma binary_round_aux_correct (s : bool) (mx ex : Z) (lx : location) (N D : Z) :
  0 < D → 0 < mx → -1074 <= ex →
  code (shr_record_of_loc mx lx) = sticky N (D * 2 ^ (ex + 1074)) →
  ex <= fexp prec emax (Zdigits2 mx + ex) →
  valid_binary prec emax (binary_round_aux prec emax s mx ex lx) = true ∧
  has_sign s (binary_round_aux prec emax s mx ex lx) ∧
  units (binary_round_aux prec emax s mx ex lx)
  = cond_Zopp s (Z.min (nearest N D) overflow_threshold).
Proof.
  intros HD Hmx Hex Hcode Hfexp. rewrite fexp_eq in Hfexp.
  assert (HP0 : 0 < 2 ^ (ex + 1074)) by (apply Z.pow_pos_nonneg; lia).
  assert (HW0 : 0 < D * 2 ^ (ex + 1074)) by (by apply Z.mul_pos_pos).
  (* the mantissa is the quotient *)
  destruct (rne_of_code _ N _ HW0 Hcode) as [Hq0 _].
  rewrite shr_m_of_loc in Hq0.
  set (dx := Zdigits2 mx) in *.
  pose proof (Zdigits2_pos mx Hmx) as Hdx. fold dx in Hdx.
  set (e1 := Z.max (dx + ex - 53) (-1074)) in *.
  assert (Hn : 0 <= e1 - ex) by lia.
  (* first shift *)
  destruct (shr_code (shr_record_of_loc mx lx) ex (e1 - ex) N _ HW0
              ltac:(rewrite shr_m_of_loc; lia) Hn Hcode) as (mrs' & Hshr & Hm' & Hcode').
  replace (ex + (e1 - ex)) with e1 in Hshr by lia.
  replace (D * 2 ^ (ex + 1074) * 2 ^ (e1 - ex)) with (D * 2 ^ (e1 + 1074)) in Hcode'.
  2:{ rewrite <- Z.mul_assoc, <- Z.pow_add_r by lia. do 2 f_equal. lia. }
  assert (HP1 : 0 < 2 ^ (e1 + 1074)) by (apply Z.pow_pos_nonneg; lia).
  assert (HW1 : 0 < D * 2 ^ (e1 + 1074)) by (by apply Z.mul_pos_pos).
  destruct (rne_of_code mrs' N _ HW1 Hcode') as [Hq1 Hrne].
  assert (Hbra : binary_round_aux prec emax s mx ex lx
                 = pack s (div_half_even N (D * 2 ^ (e1 + 1074))) e1).
  { rewrite binary_round_aux_pack. unfold shr_fexp. rewrite fexp_eq.
    fold dx. fold e1. rewrite Hshr. cbn [fst snd]. by rewrite Hrne. }
  rewrite Hbra. clear Hbra.
  (* the value aimed at *)
  assert (Hnear : nearest N D = div_half_even N (D * 2 ^ (e1 + 1074)) * 2 ^ (e1 + 1074)).
  { unfold nearest. cbv zeta.
    assert (Hdiv : N / D / 2 ^ (ex + 1074) = mx)
      by (rewrite Z.div_div by lia; done).
    assert (Hlow : 2 ^ (ex + 1074) <= N / D).
    { destruct (Z.le_gt_cases (2 ^ (ex + 1074)) (N / D)) as [|Hlt]; [done|].
      assert (0 <= N / D).
      { apply Z.div_pos; [|lia].
        destruct (Z.le_gt_cases 0 N) as [|Hneg]; [done|].
        assert (N / (D * 2 ^ (ex + 1074)) < 0) by (apply Z.div_lt_upper_bound; lia).
        lia. }
      rewrite Z.div_small in Hdiv by lia. lia. }
    pose proof (Zdigits2_div_pow2 (N / D) (ex + 1074) ltac:(lia) Hlow) as Hdig.
    rewrite Hdiv in Hdig. fold dx in Hdig.
    replace (Z.max (Zdigits2 (N / D) - 53) 0) with (e1 + 1074) by lia.
    done. }
  rewrite Hnear.
  set (m1 := div_half_even N (D * 2 ^ (e1 + 1074))) in *.
  (* the size of the rounded mantissa *)
  assert (Hq : N / (D * 2 ^ (e1 + 1074)) = mx / 2 ^ (e1 - ex)).
  { rewrite Hq0, Z.div_div by (try apply Z.pow_pos_nonneg; lia).
    f_equal. rewrite <- Z.mul_assoc, <- Z.pow_add_r by lia. do 2 f_equal. lia. }
  pose proof (div_half_even_bounds N (D * 2 ^ (e1 + 1074)) HW1) as Hm1.
  fold m1 in Hm1. rewrite Hq in Hm1. clearbody m1.
  destruct (Zdigits2_bounds mx Hmx) as [Blo Bhi]. fold dx in Blo, Bhi.
  destruct (Z.le_gt_cases (-1074) (dx + ex - 53)) as [HA|HB].
  - (* normal range *)
    assert (He1 : e1 = dx + ex - 53) by lia.
    replace (e1 - ex) with (dx - 53) in * by lia.
    assert (Hge : 2 ^ (dx - 53) <= mx).
    { assert (2 ^ (dx - 53) <= 2 ^ (dx - 1)) by (apply Z.pow_le_mono_r; lia). lia. }
    pose proof (Zdigits2_div_pow2 mx (dx - 53) ltac:(lia) Hge) as Hdq.
    fold dx in Hdq. replace (dx - (dx - 53)) with 53 in Hdq by lia.
    set (q := mx / 2 ^ (dx - 53)) in *.
    assert (Hqpos : 0 < q).
    { apply Z.div_str_pos. split; [apply Z.pow_pos_nonneg; lia|done]. }
    destruct (Zdigits2_bounds q Hqpos) as [Qlo Qhi]. rewrite Hdq in Qlo, Qhi.
    change (2 ^ (53 - 1)) with (2 ^ 52) in Qlo.
    destruct (Z.eq_dec m1 (2 ^ 53)) as [->|Hne].
    + apply pack_carry. lia.
    + apply pack_canonical; [|lia|right]; clear -Hm1 Qlo Qhi Hne; lia.
  - (* subnormal range *)
    assert (He1 : e1 = -1074) by lia.
    assert (ex = -1074) as Hex' by lia.
    replace (e1 - ex) with 0 in * by lia.
    rewrite Z.pow_0_r, Z.div_1_r in Hm1.
    assert (Hlt52 : mx < 2 ^ 52).
    { assert (2 ^ dx <= 2 ^ 52) by (apply Z.pow_le_mono_r; lia). lia. }
    apply pack_canonical; [|lia|left; lia]. clear -Hm1 Hmx Hlt52. lia.
Qed.

Lemma threshold_pos : 0 < overflow_threshold.
Proof. unfold overflow_threshold. apply Z.pow_pos_nonneg; lia. Qed.

(** The magnitude of a finite float in normal form is positive and below
    the overflow threshold. *)
Lemma magnitude_bounds (m : positive) (e : Z) :
  bounded prec emax m e = true →
  0 < Zpos m * 2 ^ (e + 1074) < overflow_threshold.
Proof.
  intros Hb. pose proof Hb as (He & Hm & _)%bounded_inv.
  assert (Hle : e <= 971).
  { unfold bounded in Hb. apply andb_prop in Hb as [_ Hb]. by apply Z.leb_le in Hb. }
  assert (HP : 0 < 2 ^ (e + 1074)) by (apply Z.pow_pos_nonneg; lia).
  split; [apply Z.mul_pos_pos; lia|].
  rewrite threshold_split.
  assert (2 ^ (e + 1074) <= 2 ^ 2045) by (apply Z.pow_le_mono_r; lia).
  assert (Zpos m * 2 ^ (e + 1074) <= Zpos m * 2 ^ 2045)
    by (apply Z.mul_le_mono_nonneg_l; lia).
  assert (Zpos m * 2 ^ 2045 < 2 ^ 53 * 2 ^ 2045)
    by (apply Z.mul_lt_mono_pos_r; [apply Z.pow_pos_nonneg|]; lia).
  lia.
Qed.

Lemma larger_exponent_lt (m1 m2 : positive) (e1 e2 : Z) :
  bounded prec emax m1 e1 = true → bounded prec emax m2 e2 = true →
  e1 < e2 → Zpos m1 * 2 ^ (e1 + 1074) < Zpos m2 * 2 ^ (e2 + 1074).
Proof.
  intros (L1 & U1 & _)%bounded_inv (L2 & _ & N2)%bounded_inv Hlt.
  assert (H52 : 2 ^ 52 <= Zpos m2) by (apply N2; lia).
  assert (Hd : 0 <= e2 - e1 ∧ 0 <= e1 + 1074 ∧ 1 <= e2 - e1) by lia.
  clear N2 L1 L2 Hlt. destruct Hd as (Hd1 & Hd2 & Hd3).
  replace (e2 + 1074) with ((e2 - e1) + (e1 + 1074)) by ring.
  rewrite (Z.pow_add_r 2 (e2 - e1) (e1 + 1074)), Z.mul_assoc by done.
  apply Z.mul_lt_mono_pos_r; [by apply Z.pow_pos_nonneg|].
  assert (2 ^ 1 <= 2 ^ (e2 - e1)) as Hp by (by apply Z.pow_le_mono_r).
  change (2 ^ 1) with 2 in Hp.
  assert (2 ^ 52 * 2 <= Zpos m2 * 2 ^ (e2 - e1)).
  { apply Z.mul_le_mono_nonneg; [done|done|done|done]. }
  change (2 ^ 52 * 2) with (2 ^ 53) in *.
  eapply Z.lt_le_trans; [exact U1|done].
Qed.

(** Comparing two positive floats in normal form compares their values. *)
Lemma compare_magnitudes (m1 m2 : positive) (e1 e2 : Z) :
  bounded prec emax m1 e1 = true → bounded prec emax m2 e2 = true →
  match e1 ?= e2 with
  | Lt => Lt
  | Gt => Gt
  | Eq => Pos.compare_cont Eq m1 m2
  end = (Zpos m1 * 2 ^ (e1 + 1074) ?= Zpos m2 * 2 ^ (e2 + 1074)).
Proof.
  intros B1 B2. destruct (Z.compare_spec e1 e2) as [->|Hlt|Hgt].
  - change (Pos.compare_cont Eq m1 m2) with (Zpos m1 ?= Zpos m2).
    pose proof B2 as (He & _ & _)%bounded_inv.
    assert (HP : 0 < 2 ^ (e2 + 1074)) by (apply Z.pow_pos_nonneg; lia).
    destruct (Z.compare_spec (Zpos m1) (Zpos m2)) as [E|Hlt|Hgt]; symmetry.
    + apply Z.compare_eq_iff. by rewrite E.
    + apply Z.compare_lt_iff. by apply Z.mul_lt_mono_pos_r.
    + apply Z.compare_gt_iff. by apply Z.mul_lt_mono_pos_r.
  - symmetry. apply Z.compare_lt_iff. by apply larger_exponent_lt.
  - symmetry. apply Z.compare_gt_iff. by apply larger_exponent_lt.
Qed.

(** On floats in normal form, [SFcompare] is the comparison of the values. *)
Lemma compare_units (x y : float) :
  valid_binary prec emax x = true → valid_binary prec emax y = true →
  is_nan x = false → is_nan y = false →
  SFcompare x y = Some (units x ?= units y).
Proof.
  pose proof threshold_pos as HT.
  destruct x as [sx|sx| |sx mx ex], y as [sy|sy| |sy my ey]; try done;
    cbn [valid_binary is_nan]; intros Vx Vy _ _;
    try (pose proof (magnitude_bounds _ _ Vx) as [Px Tx]);
    try (pose proof (magnitude_bounds _ _ Vy) as [Py Ty]);
    unfold SFcompare; cbn [units]; f_equal; symmetry.
  - destruct sy; cbn [cond_Zopp]; [apply Z.compare_gt_iff|apply Z.compare_lt_iff]; lia.
  - destruct sy; cbn [cond_Zopp]; [apply Z.compare_gt_iff|apply Z.compare_lt_iff]; lia.
  - destruct sx; cbn [cond_Zopp]; [apply Z.compare_lt_iff|apply Z.compare_gt_iff]; lia.
  - destruct sx, sy; cbn [cond_Zopp];
      [apply Z.compare_eq_iff|apply Z.compare_lt_iff|apply Z.compare_gt_iff
      |apply Z.compare_eq_iff]; lia.
  - destruct sx, sy; cbn [cond_Zopp];
      first [apply Z.compare_lt_iff; lia|apply Z.compare_gt_iff; lia].
  - destruct sx; cbn [cond_Zopp]; [apply Z.compare_lt_iff|apply Z.compare_gt_iff]; lia.
  - destruct sx, sy; cbn [cond_Zopp];
      first [apply Z.compare_lt_iff; lia|apply Z.compare_gt_iff; lia].
  - destruct sx, sy; cbn [cond_Zopp].
    + rewrite Z.compare_opp. rewrite <- (compare_magnitudes my mx ey ex) by done.
      rewrite (Z.compare_antisym ex ey).
      destruct (ex ?= ey); cbn [CompOpp]; try done.
      change (Pos.compare_cont Eq my mx) with (my ?= mx)%positive.
      change (Pos.compare_cont Eq mx my) with (mx ?= my)%positive.
      by rewrite (Pos.compare_antisym mx my).
    + apply Z.compare_lt_iff; lia.
    + apply Z.compare_gt_iff; lia.
    + symmetry. by apply compare_magnitudes.
Qed.

Lemma float_le_units (x y : float) :
  valid_binary prec emax x = true → valid_binary prec emax y = true →
  is_nan x = false → is_nan y = false →
  float_le x y = true ↔ units x <= units y.
Proof.
  intros Vx Vy Nx Ny. unfold float_le, SFleb.
  rewrite (compare_units x y Vx Vy Nx Ny).
  destruct (Z.compare_spec (units x) (units y)); split; try done; lia.
Qed.

Lemma sticky_exact (m W : Z) : 0 < W → sticky (m * W) W = 4 * m.
Proof.
  intros HW. unfold sticky.
  replace (2 * (m * W)) with (2 * m * W) by ring.
  rewrite Z.div_mul, Z.mod_mul by lia. simpl. lia.
Qed.

Lemma div_half_even_exact (a b : Z) : 0 < b → div_half_even (a * b) b = a.
Proof.
  intros Hb. unfold div_half_even. rewrite Z.div_mul, Z.mod_mul by lia.
  by assert ((2 * 0 ?= b) = Lt) as -> by (apply Z.compare_lt_iff; lia).
Qed.

Lemma Zdigits2_mul_pow2 (z d : Z) :
  0 < z → 0 <= d → Zdigits2 (z * 2 ^ d) = Zdigits2 z + d.
Proof.
  intros Hz Hd. destruct (Zdigits2_bounds z Hz) as [Lo Hi].
  pose proof (Zdigits2_pos z Hz) as Hp.
  assert (HP : 0 < 2 ^ d) by (apply Z.pow_pos_nonneg; lia).
  apply Zdigits2_unique; [|lia]. split.
  - replace (Zdigits2 z + d - 1) with (Zdigits2 z - 1 + d) by ring.
    rewrite Z.pow_add_r by lia. apply Z.mul_le_mono_nonneg_r; lia.
  - rewrite Z.pow_add_r by lia. apply Z.mul_lt_mono_pos_r; lia.
Qed.

Lemma shl_align_spec (mx : positive) (ex ez : Z) :
  Zpos (shl_align mx ex ez).1 = Zpos mx * 2 ^ (ex - Z.min ex ez) ∧
  (shl_align mx ex ez).2 = Z.min ex ez.
Proof.
  unfold shl_align. destruct (ez - ex) as [|d|d] eqn:E; cbn [fst snd].
  - replace (Z.min ex ez) with ex by lia. rewrite Z.sub_diag. simpl. lia.
  - replace (Z.min ex ez) with ex by lia. rewrite Z.sub_diag. simpl. lia.
  - replace (Z.min ex ez) with ez by lia.
    replace (ex - ez) with (Zpos d) by lia. split; [apply Pos_iter_xO|done].
Qed.

(** Rounding an integer mantissa at exponent [e]. *)
Lemma binary_round_correct (s : bool) (p : positive) (e : Z) :
  -1074 <= e →
  valid_binary prec emax (binary_round prec emax s p e) = true ∧
  has_sign s (binary_round prec emax s p e) ∧
  units (binary_round prec emax s p e)
  = cond_Zopp s (Z.min (nearest (Zpos p * 2 ^ (e + 1074)) 1) overflow_threshold).
Proof.
  intros He. unfold binary_round.
  change (Z.pos (digits2_pos p)) with (Zdigits2 (Zpos p)).
  rewrite fexp_eq.
  set (e' := Z.max (Zdigits2 (Z.pos p) + e - 53) (-1074)).
  destruct (shl_align_spec p e e') as [Hfst Hsnd].
  destruct (shl_align p e e') as [mz ez]. cbn [fst snd] in Hfst, Hsnd. subst ez.
  assert (Hmin : -1074 <= Z.min e e') by lia.
  assert (HN : Zpos p * 2 ^ (e + 1074) = Zpos mz * 2 ^ (Z.min e e' + 1074)).
  { rewrite Hfst, <- Z.mul_assoc, <- Z.pow_add_r by lia. do 2 f_equal. ring. }
  rewrite HN.
  apply binary_round_aux_correct; [lia|lia|done| |].
  - rewrite Z.mul_1_l. rewrite sticky_exact by (apply Z.pow_pos_nonneg; lia).
    unfold code. cbn. lia.
  - rewrite fexp_eq, Hfst, Zdigits2_mul_pow2 by lia. lia.
Qed.

Lemma nearest_exact (m : positive) (e : Z) :
  bounded prec emax m e = true →
  nearest (Zpos m * 2 ^ (e + 1074)) 1 = Zpos m * 2 ^ (e + 1074).
Proof.
  intros Hb. pose proof Hb as (He & _ & _)%bounded_inv.
  unfold bounded, canonical_mantissa in Hb.
  apply andb_prop in Hb as [Hc _]. apply Z.eqb_eq in Hc.
  rewrite fexp_eq in Hc. change (Z.pos (digits2_pos m)) with (Zdigits2 (Zpos m)) in Hc.
  unfold nearest. cbv zeta. rewrite Z.div_1_r, Zdigits2_mul_pow2 by lia.
  replace (Z.max (Zdigits2 (Z.pos m) + (e + 1074) - 53) 0) with (e + 1074) by lia.
  rewrite Z.mul_1_l. by rewrite div_half_even_exact by (apply Z.pow_pos_nonneg; lia).
Qed.

Lemma rounded_exact (s : bool) (m : positive) (e : Z) :
  bounded prec emax m e = true →
  rounded (cond_Zopp s (Zpos m * 2 ^ (e + 1074))) 1
  = cond_Zopp s (Zpos m * 2 ^ (e + 1074)).
Proof.
  intros Hb. destruct (magnitude_bounds m e Hb) as [Hpos Hlt].
  unfold rounded.
  set (U := Zpos m * 2 ^ (e + 1074)) in *.
  assert (Habs : Z.abs (cond_Zopp s U) = U) by (destruct s; cbn [cond_Zopp]; lia).
  rewrite Habs. unfold U at 2. rewrite nearest_exact by done. fold U.
  rewrite Z.min_l by lia.
  destruct s; cbn [cond_Zopp].
  - rewrite Z.sgn_neg by lia. lia.
  - rewrite Z.sgn_pos by lia. lia.
Qed.

Lemma has_sign_not_nan (s : bool) (x : float) : has_sign s x → is_nan x = false.
Proof. by destruct x. Qed.

(** The difference of two clock readings is their exact difference,
    rounded once. *)
Lemma float_sub_units (x y : float) :
  clock_value x → clock_value y →
  valid_binary prec emax (float_sub x y) = true ∧
  is_nan (float_sub x y) = false ∧
  units (float_sub x y) = rounded (units x - units y) 1.
Proof.
  intros [Fx Vx] [Fy Vy].
  destruct x as [sx|sx| |sx mx ex], y as [sy|sy| |sy my ey]; try done.
  - split; [by destruct sx, sy|]. split; [by destruct sx, sy|].
    by destruct sx, sy.
  - split; [done|]. split; [done|].
    cbn [float_sub SFsub units]. rewrite Z.sub_0_l.
    replace (- cond_Zopp sy (Z.pos my * 2 ^ (ey + 1074)))
      with (cond_Zopp (negb sy) (Z.pos my * 2 ^ (ey + 1074)))
      by (destruct sy; cbn [cond_Zopp negb]; lia).
    by rewrite rounded_exact.
  - split; [done|]. split; [done|].
    cbn [float_sub SFsub units]. rewrite Z.sub_0_r. by rewrite rounded_exact.
  - cbn [valid_binary] in Vx, Vy.
    pose proof Vx as (Hex & _ & _)%bounded_inv.
    pose proof Vy as (Hey & _ & _)%bounded_inv.
    unfold float_sub, SFsub. cbv zeta.
    destruct (shl_align_spec mx ex (Z.min ex ey)) as [Hx _].
    destruct (shl_align_spec my ey (Z.min ex ey)) as [Hy _].
    rewrite Hx, Hy.
    replace (Z.min ex (Z.min ex ey)) with (Z.min ex ey) by lia.
    replace (Z.min ey (Z.min ex ey)) with (Z.min ex ey) by lia.
    set (ez := Z.min ex ey) in *.
    set (M := cond_Zopp sx (Z.pos mx * 2 ^ (ex - ez))
              - cond_Zopp sy (Z.pos my * 2 ^ (ey - ez))).
    assert (HP : 0 < 2 ^ (ez + 1074)) by (apply Z.pow_pos_nonneg; lia).
    assert (HX : units (S754_finite sx mx ex) - units (S754_finite sy my ey)
                 = M * 2 ^ (ez + 1074)).
    { cbn [units]. unfold M.
      replace (ex + 1074) with ((ex - ez) + (ez + 1074)) by ring.
      replace (ey + 1074) with ((ey - ez) + (ez + 1074)) by ring.
      rewrite (Z.pow_add_r 2 (ex - ez) (ez + 1074)),
        (Z.pow_add_r 2 (ey - ez) (ez + 1074)) by lia.
      destruct sx, sy; cbn [cond_Zopp]; ring. }
    rewrite HX. clearbody M.
    destruct M as [|p|p]; cbn [binary_normalize].
    + split; [done|]. split; [done|]. done.
    + destruct (binary_round_correct false p ez ltac:(lia)) as (V & S & U).
      split; [done|]. split; [by apply has_sign_not_nan in S|].
      rewrite U. unfold rounded. cbn [cond_Zopp].
      rewrite Z.sgn_pos, Z.abs_eq by lia. lia.
    + destruct (binary_round_correct true p ez ltac:(lia)) as (V & S & U).
      split; [done|]. split; [by apply has_sign_not_nan in S|].
      rewrite U. unfold rounded. cbn [cond_Zopp].
      assert (Hneg : Z.neg p * 2 ^ (ez + 1074) < 0) by (apply Z.mul_neg_pos; lia).
      rewrite Z.sgn_neg by done.
      replace (Z.abs (Z.neg p * 2 ^ (ez + 1074))) with (Z.pos p * 2 ^ (ez + 1074)); [lia|].
      rewrite Z.abs_neq by lia. change (Z.neg p) with (- Z.pos p). ring.
Qed.

Lemma compare_scale (a b c : Z) : 0 < c → (a * c ?= b * c) = (a ?= b).
Proof.
  intros Hc. destruct (Z.compare_spec a b) as [->|Hlt|Hgt].
  - apply Z.compare_refl.
  - apply Z.compare_lt_iff. by apply Z.mul_lt_mono_pos_r.
  - apply Z.compare_gt_iff. by apply Z.mul_lt_mono_pos_r.
Qed.

Lemma div_half_even_scale (a b c : Z) :
  0 < b → 0 < c → div_half_even (a * c) (b * c) = div_half_even a b.
Proof.
  intros Hb Hc. unfold div_half_even.
  rewrite Z.div_mul_cancel_r, Z.mul_mod_distr_r by lia.
  by rewrite Z.mul_assoc, compare_scale.
Qed.

Lemma sticky_scale (a b c : Z) :
  0 < b → 0 < c → sticky (a * c) (b * c) = sticky a b.
Proof.
  intros Hb Hc. unfold sticky.
  rewrite !Z.mul_assoc, Z.div_mul_cancel_r, Z.mul_mod_distr_r by lia.
  pose proof (Z.mod_pos_bound (2 * a) b Hb) as Hm.
  destruct (Z.eqb_spec ((2 * a) mod b * c) 0) as [E|E],
           (Z.eqb_spec ((2 * a) mod b) 0) as [E'|E']; try done.
  - exfalso. apply Z.mul_eq_0 in E. lia.
  - exfalso. apply E. rewrite E'. lia.
Qed.

Lemma scaled_half_even_units (m : positive) (e : Z) :
  -1074 <= e →
  scaled_half_even m e 100
  = div_half_even (100 * (Zpos m * 2 ^ (e + 1074))) (2 ^ 1074).
Proof.
  intros He. unfold scaled_half_even.
  assert (HT : 0 < 2 ^ 1074) by (apply Z.pow_pos_nonneg; lia).
  destruct e as [|k|k].
  - rewrite Z.add_0_l, Z.pow_0_r, Z.mul_1_r, Z.mul_assoc.
    by rewrite div_half_even_exact, Z.mul_comm.
  - rewrite (Z.pow_add_r 2 (Zpos k) 1074) by lia.
    replace (100 * (Z.pos m * (2 ^ Z.pos k * 2 ^ 1074)))
      with (Z.pos m * 100 * 2 ^ Z.pos k * 2 ^ 1074) by ring.
    by rewrite div_half_even_exact.
  - assert (Hk : Zpos k <= 1074) by lia.
    replace (Z.neg k + 1074) with (1074 - Zpos k) by lia.
    replace (2 ^ 1074) with (2 ^ Zpos k * 2 ^ (1074 - Zpos k))
      by (rewrite <- Z.pow_add_r by lia; f_equal; lia).
    replace (100 * (Z.pos m * 2 ^ (1074 - Z.pos k)))
      with (Z.pos m * 100 * 2 ^ (1074 - Z.pos k)) by ring.
    by rewrite div_half_even_scale by (apply Z.pow_pos_nonneg; lia).
Qed.

(** The location computed from a remainder is the rounding code of the quotient. *)
Lemma code_new_location_even (a W : Z) :
  0 < W →
  code (shr_record_of_loc (a / W) (new_location_even W (a mod W))) = sticky a W.
Proof.
  intros HW. unfold new_location_even, sticky.
  pose proof (Z.div_mod a W ltac:(lia)) as E.
  pose proof (Z.mod_pos_bound a W HW) as B.
  set (q := a / W) in *. set (r := a mod W) in *.
  destruct (Z.eqb_spec r 0) as [Hr|Hr].
  - destruct (div_mod_eq (2 * a) W (2 * q) 0) as [-> ->]; [lia|lia|].
    unfold code. cbn. lia.
  - destruct (Z.compare_spec (2 * r) W) as [Heq|Hlt|Hgt].
    + destruct (div_mod_eq (2 * a) W (2 * q + 1) 0) as [-> ->]; [lia|lia|].
      unfold code. cbn. lia.
    + destruct (div_mod_eq (2 * a) W (2 * q) (2 * r)) as [-> ->]; [lia|lia|].
      destruct (Z.eqb_spec (2 * r) 0); [lia|]. unfold code. cbn. lia.
    + destruct (div_mod_eq (2 * a) W (2 * q + 1) (2 * r - W)) as [-> ->]; [lia|lia|].
      destruct (Z.eqb_spec (2 * r - W) 0); [lia|]. unfold code. cbn. lia.
Qed.

Lemma Zdigits2_lower (z j : Z) : 0 <= j → 2 ^ j <= z → j < Zdigits2 z.
Proof.
  intros Hj Hz.
  assert (0 < 2 ^ j) by (apply Z.pow_pos_nonneg; lia).
  destruct (Zdigits2_bounds z) as [_ Hhi]; [lia|].
  apply (Z.pow_lt_mono_r_iff 2); [lia|apply Zdigits2_nonneg|lia].
Qed.

(** The float nearest to [n / 100]. *)
Lemma float_of_ratio_correct (s : bool) (n : Z) :
  0 < n →
  valid_binary prec emax (float_of_ratio s n 100) = true ∧
  has_sign s (float_of_ratio s n 100) ∧
  units (float_of_ratio s n 100)
  = cond_Zopp s (Z.min (nearest (n * 2 ^ 1074) 100) overflow_threshold).
Proof.
  intros Hn. unfold float_of_ratio, SFdiv_core_binary. cbv zeta.
  change (Zdigits2 100) with 7. rewrite !Z.add_0_r, fexp_eq.
  change (0 - 0) with 0.
  set (dn := Zdigits2 n).
  pose proof (Zdigits2_pos n Hn) as Hdn. fold dn in Hdn.
  destruct (Zdigits2_bounds n Hn) as [Nlo _]. fold dn in Nlo.
  set (e' := Z.min (Z.max (dn - 7 - 53) (-1074)) 0).
  assert (He' : e' = Z.min (dn - 60) 0) by lia.
  assert (Hm' : match 0 - e' with
                | 0 => n
                | Z.pos _ => Z.shiftl n (0 - e')
                | Z.neg _ => 0
                end = n * 2 ^ (- e')).
  { replace (0 - e') with (- e') by lia.
    destruct (- e') as [|k|k] eqn:Ek; [|by rewrite Z.shiftl_mul_pow2 by lia|lia].
    rewrite Z.pow_0_r. lia. }
  rewrite Hm'. set (m' := n * 2 ^ (- e')).
  assert (Hqr : Z.div_eucl m' 100 = (m' / 100, m' mod 100)).
  { unfold Z.div, Z.modulo. by destruct (Z.div_eucl m' 100). }
  rewrite Hqr.
  change (new_location 100 (m' mod 100)) with (new_location_even 100 (m' mod 100)).
  (* the quotient has at least 53 bits *)
  assert (Hm'lo : 2 ^ (dn - 1 - e') <= m').
  { unfold m'. replace (dn - 1 - e') with ((dn - 1) + (- e')) by ring.
    rewrite Z.pow_add_r by lia.
    apply Z.mul_le_mono_nonneg_r; [apply Z.pow_nonneg; lia|done]. }
  assert (Hqlo : 2 ^ (dn - e' - 8) <= m' / 100).
  { assert (Hstep : 2 ^ (dn - e' - 8) * 100 <= 2 ^ (dn - 1 - e')).
    { replace (dn - 1 - e') with ((dn - e' - 8) + 7) by ring.
      rewrite Z.pow_add_r by lia. change (2 ^ 7) with 128.
      assert (0 < 2 ^ (dn - e' - 8)) by (apply Z.pow_pos_nonneg; lia). lia. }
    apply Z.div_le_lower_bound; lia. }
  assert (Hqpos : 0 < m' / 100).
  { assert (0 < 2 ^ (dn - e' - 8)) by (apply Z.pow_pos_nonneg; lia). lia. }
  pose proof (Zdigits2_lower (m' / 100) (dn - e' - 8) ltac:(lia) Hqlo) as Hdq.
  apply binary_round_aux_correct; [lia|done|lia| |].
  - replace (n * 2 ^ 1074) with (m' * 2 ^ (e' + 1074)).
    2:{ unfold m'. rewrite <- Z.mul_assoc, <- Z.pow_add_r by lia. do 2 f_equal. ring. }
    rewrite sticky_scale by (try apply Z.pow_pos_nonneg; lia).
    by apply code_new_location_even.
  - rewrite fexp_eq. lia.
Qed.

Lemma round_units_threshold (s : bool) :
  round_units (cond_Zopp s overflow_threshold) = cond_Zopp s overflow_threshold.
Proof. destruct s; vm_compute; reflexivity. Qed.

Lemma rounded_zero (D : Z) : rounded 0 D = 0.
Proof. unfold rounded. by rewrite Z.sgn_0, Z.mul_0_l. Qed.

(** [round(x, 2)] on a float in normal form. *)
Lemma round_units_correct (x : float) :
  valid_binary prec emax x = true → is_nan x = false →
  valid_binary prec emax (round x 2) = true ∧
  is_nan (round x 2) = false ∧
  units (round x 2) = round_units (units x).
Proof.
  intros Vx Nx. destruct x as [s|s| |s m e]; try done.
  - split; [done|]. split; [done|].
    change (units (S754_infinity s) = round_units (units (S754_infinity s))).
    cbn [units]. by rewrite round_units_threshold.
  - cbn [valid_binary] in Vx.
    pose proof Vx as (He & _ & _)%bounded_inv.
    destruct (magnitude_bounds m e Vx) as [HU _].
    unfold round. change (10 ^ Z.of_nat 2) with 100. cbv zeta.
    rewrite scaled_half_even_units by done.
    cbn [units]. unfold round_units.
    set (U := Zpos m * 2 ^ (e + 1074)) in *.
    assert (Habs : Z.abs (cond_Zopp s U) = U) by (destruct s; cbn [cond_Zopp]; lia).
    rewrite Habs.
    assert (HT : 0 < 2 ^ 1074) by (apply Z.pow_pos_nonneg; lia).
    pose proof (div_half_even_nonneg (100 * U) (2 ^ 1074) ltac:(lia) HT) as Hn.
    set (n := div_half_even (100 * U) (2 ^ 1074)) in *.
    destruct (Z.eqb_spec n 0) as [->|Hne].
    + split; [done|]. split; [done|].
      cbn [units]. by rewrite Z.mul_0_l, Z.mul_0_r, rounded_zero.
    + destruct (float_of_ratio_correct s n ltac:(lia)) as (V & S & Hu).
      split; [done|]. split; [by apply has_sign_not_nan in S|].
      rewrite Hu. unfold rounded.
      assert (HnT : 0 < n * 2 ^ 1074) by (apply Z.mul_pos_pos; lia).
      destruct s; cbn [cond_Zopp].
      * rewrite (Z.sgn_neg (- U)) by lia.
        replace (-1 * (n * 2 ^ 1074)) with (- (n * 2 ^ 1074)) by ring.
        rewrite Z.sgn_neg, Z.abs_neq, Z.opp_involutive by lia. lia.
      * rewrite (Z.sgn_pos U) by lia. rewrite Z.mul_1_l.
        rewrite Z.sgn_pos, Z.abs_eq by lia. lia.
Qed.

(** ** Rounding keeps the order *)

Lemma div_half_even_mono (a1 a2 b : Z) :
  0 < b → a1 <= a2 → div_half_even a1 b <= div_half_even a2 b.
Proof.
  intros Hb Hle.
  pose proof (Z.div_le_mono a1 a2 b Hb Hle) as Hq.
  pose proof (div_half_even_bounds a1 b Hb) as B1.
  pose proof (div_half_even_bounds a2 b Hb) as B2.
  destruct (Z.eq_dec (a1 / b) (a2 / b)) as [E|NE]; [|lia].
  pose proof (Z.div_mod a1 b ltac:(lia)) as E1.
  pose proof (Z.div_mod a2 b ltac:(lia)) as E2.
  unfold div_half_even in *. rewrite <- E in *.
  destruct (Z.compare_spec (2 * (a1 mod b)) b), (Z.compare_spec (2 * (a2 mod b)) b);
    try lia; destruct (Z.even (a1 / b)); lia.
Qed.

Lemma Zdigits2_upper (z : Z) : 0 <= z → z < 2 ^ Zdigits2 z.
Proof.
  intros Hz. destruct (Z.eq_dec z 0) as [->|Hne]; [done|].
  by apply Zdigits2_bounds; lia.
Qed.

Lemma nearest_nonneg (N D : Z) : 0 < D → 0 <= N → 0 <= nearest N D.
Proof.
  intros HD HN. unfold nearest. cbv zeta.
  apply Z.mul_nonneg_nonneg; [|apply Z.pow_nonneg; lia].
  apply div_half_even_nonneg; [done|].
  apply Z.mul_pos_pos; [done|]. apply Z.pow_pos_nonneg; lia.
Qed.

Lemma nearest_mono (N1 N2 D : Z) :
  0 < D → 0 <= N1 <= N2 → nearest N1 D <= nearest N2 D.
Proof.
  intros HD [H1 H12]. unfold nearest. cbv zeta.
  assert (Hq1 : 0 <= N1 / D) by (apply Z.div_pos; lia).
  assert (Hq12 : N1 / D <= N2 / D) by (apply Z.div_le_mono; lia).
  pose proof (Zdigits2_mono (N1 / D) (N2 / D) ltac:(lia)) as Hd.
  set (d1 := Zdigits2 (N1 / D)) in *. set (d2 := Zdigits2 (N2 / D)) in *.
  pose proof (Zdigits2_nonneg (N1 / D)) as Hd1. fold d1 in Hd1.
  set (k1 := Z.max (d1 - 53) 0). set (k2 := Z.max (d2 - 53) 0).
  assert (HP1 : 0 < 2 ^ k1) by (apply Z.pow_pos_nonneg; lia).
  assert (HP2 : 0 < 2 ^ k2) by (apply Z.pow_pos_nonneg; lia).
  destruct (Z.eq_dec k1 k2) as [E|NE].
  - rewrite <- E. apply Z.mul_le_mono_nonneg_r; [lia|].
    apply div_half_even_mono; [by apply Z.mul_pos_pos|done].
  - assert (Hk : k1 < k2 ∧ d2 = 53 + k2 ∧ d1 <= 53 + k1) by lia.
    destruct Hk as (Hlt & Hd2 & Hd1').
    (* the smaller one stays below [2^(53 + k1)] *)
    pose proof (div_half_even_bounds N1 (D * 2 ^ k1) ltac:(by apply Z.mul_pos_pos)) as [_ U1].
    rewrite <- Z.div_div in U1 by lia.
    assert (Hu : N1 / D / 2 ^ k1 < 2 ^ 53).
    { apply Z.div_lt_upper_bound; [done|].
      rewrite <- Z.pow_add_r by lia.
      pose proof (Zdigits2_upper (N1 / D) Hq1) as Hup. fold d1 in Hup.
      assert (2 ^ d1 <= 2 ^ (k1 + 53)) by (apply Z.pow_le_mono_r; lia). lia. }
    (* the larger one is at least [2^(52 + k2)] *)
    pose proof (div_half_even_bounds N2 (D * 2 ^ k2) ltac:(by apply Z.mul_pos_pos)) as [L2 _].
    rewrite <- Z.div_div in L2 by lia.
    assert (Hl : 2 ^ 52 <= N2 / D / 2 ^ k2).
    { apply Z.div_le_lower_bound; [done|].
      rewrite <- Z.pow_add_r by lia.
      destruct (Zdigits2_bounds (N2 / D)) as [Lo _].
      { destruct (Z.eq_dec (N2 / D) 0) as [E0|]; [|lia].
        unfold d2 in Hd2. rewrite E0 in Hd2. simpl in Hd2. lia. }
      fold d2 in Lo. rewrite Hd2 in Lo.
      by replace (k2 + 52) with (53 + k2 - 1) by ring. }
    assert (S1 : div_half_even N1 (D * 2 ^ k1) * 2 ^ k1 <= 2 ^ 53 * 2 ^ k1)
      by (apply Z.mul_le_mono_nonneg_r; lia).
    assert (S2 : 2 ^ 52 * 2 ^ k2 <= div_half_even N2 (D * 2 ^ k2) * 2 ^ k2)
      by (apply Z.mul_le_mono_nonneg_r; lia).
    assert (S3 : 2 ^ 53 * 2 ^ k1 <= 2 ^ 52 * 2 ^ k2).
    { rewrite <- !Z.pow_add_r by lia. apply Z.pow_le_mono_r; lia. }
    lia.
Qed.

(** A function that is odd and grows on the non-negative numbers grows everywhere. *)
Lemma odd_extension_mono (G : Z → Z) (x y : Z) :
  (∀ a, 0 <= a → 0 <= G a) →
  (∀ a b, 0 <= a <= b → G a <= G b) →
  x <= y → Z.sgn x * G (Z.abs x) <= Z.sgn y * G (Z.abs y).
Proof.
  intros Hpos Hmono Hxy.
  pose proof (Hpos (Z.abs x) (Z.abs_nonneg x)) as Gx.
  pose proof (Hpos (Z.abs y) (Z.abs_nonneg y)) as Gy.
  destruct (Z.sgn_spec x) as [[Hx ->]|[[Hx ->]|[Hx ->]]],
           (Z.sgn_spec y) as [[Hy ->]|[[Hy ->]|[Hy ->]]]; try lia.
  - pose proof (Hmono (Z.abs x) (Z.abs y) ltac:(lia)). lia.
  - pose proof (Hmono (Z.abs y) (Z.abs x) ltac:(lia)). lia.
Qed.

Lemma rounded_mono (X1 X2 D : Z) :
  0 < D → X1 <= X2 → rounded X1 D <= rounded X2 D.
Proof.
  intros HD Hle. unfold rounded.
  apply (odd_extension_mono (λ a, Z.min (nearest a D) overflow_threshold)); [| |done].
  - intros a Ha. pose proof (nearest_nonneg a D HD Ha). pose proof threshold_pos. lia.
  - intros a b Hab. pose proof (nearest_mono a b D HD Hab). lia.
Qed.

Lemma round_units_mono (v1 v2 : Z) : v1 <= v2 → round_units v1 <= round_units v2.
Proof.
  intros Hle. unfold round_units. apply rounded_mono; [lia|].
  assert (HT : 0 < 2 ^ 1074) by (apply Z.pow_pos_nonneg; lia).
  apply (odd_extension_mono (λ a, div_half_even (100 * a) (2 ^ 1074) * 2 ^ 1074));
    [| |done].
  - intros a Ha. apply Z.mul_nonneg_nonneg; [|lia].
    apply div_half_even_nonneg; lia.
  - intros a b Hab. apply Z.mul_le_mono_nonneg_r; [lia|].
    apply div_half_even_mono; lia.
Qed.

Lemma clock_value_not_nan (x : float) : clock_value x → is_nan x = false.
Proof. intros [Hf _]. by destruct x. Qed.

(** The uptime computed by [health_check] grows with the clock reading. *)
Lemma uptime_order (start t1 t2 : float) :
  clock_value start → clock_value t1 → clock_value t2 →
  float_le t1 t2 = true →
  float_le (round (float_sub t1 start) 2) (round (float_sub t2 start) 2) = true.
Proof.
  intros Hs H1 H2 Hle.
  apply float_le_units in Hle;
    [|apply H1|apply H2|by apply clock_value_not_nan|by apply clock_value_not_nan].
  destruct (float_sub_units t1 start H1 Hs) as (V1 & N1 & U1).
  destruct (float_sub_units t2 start H2 Hs) as (V2 & N2 & U2).
  destruct (round_units_correct _ V1 N1) as (W1 & M1 & R1).
  destruct (round_units_correct _ V2 N2) as (W2 & M2 & R2).
  apply float_le_units; [done|done|done|done|].
  rewrite R1, R2, U1, U2.
  apply round_units_mono, rounded_mono; lia.
Qed.

(** ** How far rounding moves a value *)

(** A value that is a multiple of its own rounding step is kept. *)
Lemma nearest_multiple (c k : Z) :
  0 < c → 0 <= k → Zdigits2 c <= 53 → nearest (c * 2 ^ k) 1 = c * 2 ^ k.
Proof.
  intros Hc Hk Hd. unfold nearest. cbv zeta.
  rewrite Z.div_1_r, Zdigits2_mul_pow2, Z.mul_1_l by lia.
  pose proof (Zdigits2_pos c Hc) as Hp.
  set (j := Z.max (Zdigits2 c + k - 53) 0).
  assert (Hj : 0 <= j <= k) by lia.
  replace (c * 2 ^ k) with (c * 2 ^ (k - j) * 2 ^ j).
  2:{ rewrite <- Z.mul_assoc, <- Z.pow_add_r by lia. do 2 f_equal. ring. }
  by rewrite div_half_even_exact by (apply Z.pow_pos_nonneg; lia).
Qed.

(** The difference of two clock readings is exact when the later one is
    at most twice the earlier one. *)
Lemma rounded_difference_exact (start now : float) :
  clock_value start → clock_value now →
  0 <= units now - units start <= units start →
  rounded (units now - units start) 1 = units now - units start.
Proof.
  intros [Fs Vs] [Fn Vn] [H0 H1].
  destruct (Z.eq_dec (units now - units start) 0) as [->|Hne]; [apply rounded_zero|].
  destruct start as [ss|ss| |ss ms es]; try done; cbn [units] in *; [lia|].
  cbn [valid_binary] in Vs. destruct (magnitude_bounds ms es Vs) as [Ps Ts].
  destruct ss; cbn [cond_Zopp] in *; [lia|].
  destruct now as [sn|sn| |sn mn en]; try done; cbn [units] in *; [lia|].
  cbn [valid_binary] in Vn. destruct (magnitude_bounds mn en Vn) as [Pn Tn].
  destruct sn; cbn [cond_Zopp] in *; [lia|].
  pose proof Vs as (Les & Ums & _)%bounded_inv.
  assert (Hee : es <= en).
  { destruct (Z.le_gt_cases es en) as [|Hgt]; [done|].
    pose proof (larger_exponent_lt mn ms en es Vn Vs Hgt). lia. }
  assert (HP : 0 < 2 ^ (es + 1074)) by (apply Z.pow_pos_nonneg; lia).
  assert (HX : Z.pos mn * 2 ^ (en + 1074) - Z.pos ms * 2 ^ (es + 1074)
               = (Z.pos mn * 2 ^ (en - es) - Z.pos ms) * 2 ^ (es + 1074)).
  { replace (en + 1074) with ((en - es) + (es + 1074)) by ring.
    rewrite (Z.pow_add_r 2 (en - es) (es + 1074)) by lia. ring. }
  rewrite HX in *.
  set (c := Z.pos mn * 2 ^ (en - es) - Z.pos ms) in *.
  assert (Hc : 0 < c <= Z.pos ms).
  { split.
    - destruct (Z.le_gt_cases c 0) as [Hle|]; [|done].
      assert (c * 2 ^ (es + 1074) <= 0 * 2 ^ (es + 1074))
        by (apply Z.mul_le_mono_nonneg_r; lia). lia.
    - apply (Z.mul_le_mono_pos_r _ _ (2 ^ (es + 1074))); lia. }
  unfold rounded. rewrite Z.sgn_pos, Z.abs_eq, Z.mul_1_l by lia.
  rewrite nearest_multiple; [lia|lia|lia|].
  apply Zdigits2_le; lia.
Qed.

(** The error of rounding to the nearest integer is at most one half. *)
Lemma div_half_even_error (a b : Z) :
  0 < b → 2 * Z.abs (div_half_even a b * b - a) <= b.
Proof.
  intros Hb. unfold div_half_even.
  pose proof (Z.div_mod a b ltac:(lia)) as E.
  pose proof (Z.mod_pos_bound a b Hb) as B.
  set (q := a / b) in *. set (r := a mod b) in *.
  assert (Hqb : q * b = b * q) by ring.
  destruct (Z.compare_spec (2 * r) b); [destruct (Z.even q)| |]; lia.
Qed.

(** The error of [nearest] is at most half a rounding step. *)
Lemma nearest_error (N D : Z) :
  0 < D → 0 <= N →
  2 * Z.abs (D * nearest N D - N) <= D * 2 ^ Z.max (Zdigits2 (N / D) - 53) 0.
Proof.
  intros HD HN. unfold nearest. cbv zeta.
  set (k := Z.max (Zdigits2 (N / D) - 53) 0).
  assert (HP : 0 < 2 ^ k) by (apply Z.pow_pos_nonneg; lia).
  pose proof (div_half_even_error N (D * 2 ^ k) ltac:(by apply Z.mul_pos_pos)) as H.
  replace (D * (div_half_even N (D * 2 ^ k) * 2 ^ k) - N)
    with (div_half_even N (D * 2 ^ k) * (D * 2 ^ k) - N) by ring.
  done.
Qed.

(** Rounding to two decimals moves a value below [2^45] by at most one
    hundredth. *)
Lemma round_units_tolerance (X : Z) :
  0 <= X <= 2 ^ 1119 → 100 * Z.abs (round_units X - X) <= 2 ^ 1074.
Proof.
  intros [H0 HX]. unfold round_units.
  destruct (Z.eq_dec X 0) as [->|Hne].
  { rewrite Z.sgn_0, Z.mul_0_l, rounded_zero. change (Z.abs (0 - 0)) with 0.
    rewrite Z.mul_0_r. apply Z.pow_nonneg. lia. }
  rewrite (Z.sgn_pos X), (Z.abs_eq X), Z.mul_1_l by lia.
  set (T := 2 ^ 1074).
  assert (HT : T = 128 * 2 ^ 1067) by (by vm_compute).
  assert (HT' : 2 ^ 1119 = 2 ^ 45 * T ∧ 2 ^ 1120 = 2 ^ 46 * T)
    by (unfold T; by vm_compute).
  destruct HT' as [HT1 HT2]. rewrite HT1 in HX.
  assert (HS : 0 < 2 ^ 1067) by (apply Z.pow_pos_nonneg; lia).
  pose proof (div_half_even_error (100 * X) T ltac:(lia)) as E1.
  pose proof (div_half_even_nonneg (100 * X) T ltac:(lia) ltac:(lia)) as Hn.
  set (n := div_half_even (100 * X) T) in *.
  destruct (Z.eq_dec n 0) as [En|Hn0].
  { rewrite En in *. rewrite Z.mul_0_l, rounded_zero.
    clearbody T. lia. }
  assert (HnT : 0 < n * T) by (apply Z.mul_pos_pos; lia).
  unfold rounded. rewrite (Z.sgn_pos (n * T)), (Z.abs_eq (n * T)), Z.mul_1_l by lia.
  pose proof (nearest_error (n * T) 100 ltac:(lia) ltac:(lia)) as E2.
  pose proof (nearest_nonneg (n * T) 100 ltac:(lia) ltac:(lia)) as HV.
  (* the rounding step of the result *)
  assert (HT0 : 0 < T) by (unfold T; apply Z.pow_pos_nonneg; lia).
  assert (HnT' : n * T < 100 * (2 ^ 46 * T)) by (clearbody T n; lia).
  assert (Hq : n * T / 100 < 2 ^ 1120).
  { apply Z.div_lt_upper_bound; [lia|]. by rewrite HT2. }
  assert (Hd : Zdigits2 (n * T / 100) <= 1120).
  { apply Zdigits2_le; [lia|]. split; [apply Z.div_pos; lia|done]. }
  set (k := Z.max (Zdigits2 (n * T / 100) - 53) 0) in *.
  assert (Hk : 2 ^ k <= 2 ^ 1067) by (apply Z.pow_le_mono_r; lia).
  assert (Hk0 : 0 < 2 ^ k) by (apply Z.pow_pos_nonneg; lia).
  set (V := nearest (n * T) 100) in *.
  assert (HVT : V < overflow_threshold).
  { assert (overflow_threshold = 2 ^ 1024 * T) as -> by (unfold T; by vm_compute).
    assert (2 ^ 46 < 2 ^ 1024) by (apply Z.pow_lt_mono_r; lia).
    assert (2 ^ 46 * T < 2 ^ 1024 * T) by (apply Z.mul_lt_mono_pos_r; lia).
    clearbody T n V k. lia. }
  rewrite Z.min_l by lia.
  clearbody T n V k. lia.
Qed.

(* ================================================================== *)
(** * Part V: properties of the service *)
(* ================================================================== *)

(** C5. Configuration defaults: when an environment variable is unset the
    module takes "1.0.0" for [APP_VERSION], "development" for
    [ENVIRONMENT] and "unknown" for [CLOUD_PROVIDER]; when it is set, its
    string value is taken. *)
Theorem config_defaults (environ : gmap string string) (os : OS) :
  let p := startup environ os in
  APP_VERSION p = default "1.0.0" (environ !! "APP_VERSION") ∧
  ENVIRONMENT p = default "development" (environ !! "ENVIRONMENT") ∧
  CLOUD_PROVIDER p = default "unknown" (environ !! "CLOUD_PROVIDER").
Proof.
  simpl. unfold getenv.
  by destruct (environ !! "APP_VERSION"), (environ !! "ENVIRONMENT"),
    (environ !! "CLOUD_PROVIDER").
Qed.

(** C6. [GET /] answers 200 with a JSON object of exactly the four fields
    [message], [version], [docs], [health], where [version] is the
    configured [APP_VERSION], [docs] is "/docs" and [health] is
    "/health". *)
Theorem root_answer (p : process) (os : OS) :
  ∃ r, app p os "/" = Some r ∧
    status_code r = 200 ∧
    keys (content r) = ["message"; "version"; "docs"; "health"] ∧
    field "version" (content r) = Some (JString (APP_VERSION p)) ∧
    field "docs" (content r) = Some (JString "/docs") ∧
    field "health" (content r) = Some (JString "/health").
Proof. eexists. split; [reflexivity|]. by repeat split. Qed.

(** C7. [GET /ready] answers 200 with exactly the object
    [{"status": "ready"}], whatever the configuration, the host name and
    the time are. *)
Theorem ready_answer (p : process) (os : OS) :
  app p os "/ready"
  = Some {| status_code := 200; content := JObject [("status", JString "ready")] |}.
Proof. reflexivity. Qed.

(** C10. The [status] field of every [HealthResponse] that [GET /health]
    returns is the string "healthy", whatever the configuration, the host
    name and the elapsed time are. *)
Theorem health_status_healthy (p : process) (os : OS) (h : HealthResponse) :
  health_check p os = Ok h →
  status h = "healthy" ∧
  field "status" (HealthResponse_json h) = Some (JString "healthy").
Proof. intros (host & _ & ->)%health_check_inv. done. Qed.

Lemma health_status_healthy_witness :
  ∃ h, health_check (startup staging_environ sample_os) later_os = Ok h ∧
    status h = "healthy" ∧
    field "status" (HealthResponse_json h) = Some (JString "healthy").
Proof.
  eexists. split; [reflexivity|].
  apply (health_status_healthy (startup staging_environ sample_os) later_os).
  reflexivity.
Defined.

(** C2 (as amended). When the handler of a route raises an exception, the
    handler registered for [Exception] answers with status 500 and a JSON
    object of exactly the fields [error], [detail] and [timestamp]:
    [error] is "Internal Server Error", [detail] is [str(exc)], the
    message of the exception (the empty string when the exception carries
    none), and [timestamp] is the ISO form of the current UTC time.  The
    process does not crash: the exception goes to the server once the
    answer is sent, and the requests before and after are answered by the
    same process as they are without it. *)
Theorem unhandled_exception_answer
    (p : process) (os : OS) (path : string) (ep : endpoint) (exc : exception) :
  route path = Some ep →
  call_endpoint p os ep = Raise exc →
  ∃ r, app p os path = Some r ∧
    status_code r = 500 ∧
    keys (content r) = ["error"; "detail"; "timestamp"] ∧
    field "error" (content r) = Some (JString "Internal Server Error") ∧
    field "detail" (content r) = Some (JString (str exc)) ∧
    field "timestamp" (content r) = Some (JString (isoformat (datetime_utcnow os))) ∧
    dispatch p os path = Some (r, Some exc) ∧
    ∀ before after,
      (serve p (before ++ (os, path) :: after)).1
      = (serve p before).1 ++ Some r :: (serve p after).1.
Proof.
  intros Hroute Hraise.
  exists (global_exception_handler os exc).
  split; [unfold app; by rewrite Hroute, Hraise|].
  assert (Hd : dispatch p os path = Some (global_exception_handler os exc, Some exc))
    by (unfold dispatch; by rewrite Hroute, Hraise).
  do 5 (split; [done|]). split; [done|].
  intros before after. rewrite serve_answers_app. f_equal.
  cbn [serve]. rewrite Hd. by destruct (serve p after).
Qed.

Lemma unhandled_exception_answer_witness :
  route "/health" = Some Health ∧
  call_endpoint (startup staging_environ sample_os) failing_os Health
    = Raise (new_exception OSError [lookup_failed]) ∧
  ∃ r, app (startup staging_environ sample_os) failing_os "/health" = Some r ∧
    status_code r = 500 ∧
    keys (content r) = ["error"; "detail"; "timestamp"] ∧
    field "error" (content r) = Some (JString "Internal Server Error") ∧
    field "detail" (content r) = Some (JString "lookup failed") ∧
    field "timestamp" (content r) = Some (JString "2024-10-27T03:33:32.345600") ∧
    dispatch (startup staging_environ sample_os) failing_os "/health"
      = Some (r, Some (new_exception OSError [lookup_failed])) ∧
    ∀ before after,
      (serve (startup staging_environ sample_os)
         (before ++ (failing_os, "/health") :: after)).1
      = (serve (startup staging_environ sample_os) before).1
        ++ Some r :: (serve (startup staging_environ sample_os) after).1.
Proof.
  split; [reflexivity|]. split; [reflexivity|].
  exact (unhandled_exception_answer (startup staging_environ sample_os) failing_os
           "/health" Health (new_exception OSError [lookup_failed]) eq_refl eq_refl).
Defined.

(** C2 as stated fails: an exception without a message raised during
    [GET /health] is answered with an empty [detail]. *)
Lemma empty_message_empty_detail :
  ∃ r, app (startup staging_environ sample_os) silent_os "/health" = Some r ∧
    status_code r = 500 ∧
    ¬ (∃ d, field "detail" (content r) = Some (JString d) ∧ d ≠ "").
Proof.
  eexists. split; [reflexivity|]. split; [reflexivity|].
  intros (d & Hd & Hne). simpl in Hd. by injection Hd as <-.
Qed.

(** C3. Within one process, the [environment], [cloud_provider] and
    [version] fields of a [GET /health] answer and of a [GET /metadata]
    answer are equal to each other and to the values of [ENVIRONMENT],
    [CLOUD_PROVIDER] and [APP_VERSION] in the environment at start (their
    defaults when unset). *)
Theorem health_metadata_same_config
    (environ : gmap string string) (os0 os1 os2 : OS) (h : HealthResponse) (m : json) :
  health_check (startup environ os0) os1 = Ok h →
  instance_metadata (startup environ os0) os2 = Ok m →
  (field "environment" (HealthResponse_json h) = field "environment" m ∧
   field "cloud_provider" (HealthResponse_json h) = field "cloud_provider" m ∧
   field "version" (HealthResponse_json h) = field "version" m) ∧
  field "environment" m
    = Some (JString (default "development" (environ !! "ENVIRONMENT"))) ∧
  field "cloud_provider" m
    = Some (JString (default "unknown" (environ !! "CLOUD_PROVIDER"))) ∧
  field "version" m
    = Some (JString (default "1.0.0" (environ !! "APP_VERSION"))).
Proof.
  intros (host1 & _ & ->)%health_check_inv (host2 & _ & ->)%instance_metadata_inv.
  destruct (config_defaults environ os0) as (Hv & He & Hc).
  simpl in Hv, He, Hc. simpl. rewrite Hv, He, Hc. done.
Qed.

Lemma health_metadata_same_config_witness :
  ∃ h m,
    health_check (startup staging_environ sample_os) later_os = Ok h ∧
    instance_metadata (startup staging_environ sample_os) sample_os = Ok m ∧
    field "environment" (HealthResponse_json h) = Some (JString "staging") ∧
    field "environment" m = Some (JString "staging") ∧
    field "cloud_provider" m = Some (JString "aws") ∧
    field "version" m = Some (JString "1.0.0").
Proof.
  eexists. eexists. split; [reflexivity|]. split; [reflexivity|].
  destruct (health_metadata_same_config staging_environ sample_os later_os sample_os
              _ _ eq_refl eq_refl) as ((He & _ & _) & Hm & Hc & Hv).
  split; [by rewrite He, Hm|]. by rewrite Hm, Hc, Hv.
Defined.

(** C8. The [hostname] field of a [GET /health] and of a [GET /metadata]
    answer is the name the operating system reports during that request,
    not a value kept from start: when the reported names of two requests
    differ, so do the [hostname] fields. *)
Theorem hostname_queried_per_request
    (environ : gmap string string) (os0 os1 os2 : OS) (host1 host2 : string) :
  socket_gethostname os1 = Ok host1 →
  socket_gethostname os2 = Ok host2 →
  ∃ h1 h2 m1 m2,
    health_check (startup environ os0) os1 = Ok h1 ∧
    health_check (startup environ os0) os2 = Ok h2 ∧
    instance_metadata (startup environ os0) os1 = Ok m1 ∧
    instance_metadata (startup environ os0) os2 = Ok m2 ∧
    hostname h1 = host1 ∧ hostname h2 = host2 ∧
    field "hostname" m1 = Some (JString host1) ∧
    field "hostname" m2 = Some (JString host2) ∧
    (host1 ≠ host2 →
     hostname h1 ≠ hostname h2 ∧ field "hostname" m1 ≠ field "hostname" m2).
Proof.
  intros H1 H2.
  destruct (health_check_returns (startup environ os0) os1 host1 H1) as (h1 & Hh1 & E1).
  destruct (health_check_returns (startup environ os0) os2 host2 H2) as (h2 & Hh2 & E2).
  destruct (instance_metadata_returns (startup environ os0) os1 host1 H1) as (m1 & Hm1 & F1).
  destruct (instance_metadata_returns (startup environ os0) os2 host2 H2) as (m2 & Hm2 & F2).
  exists h1, h2, m1, m2. repeat split; try done.
  - by rewrite E1, E2.
  - rewrite F1, F2. congruence.
Qed.

Lemma hostname_queried_per_request_witness :
  ∃ h1 h2 m1 m2,
    health_check (startup staging_environ sample_os) sample_os = Ok h1 ∧
    health_check (startup staging_environ sample_os) later_os = Ok h2 ∧
    instance_metadata (startup staging_environ sample_os) sample_os = Ok m1 ∧
    instance_metadata (startup staging_environ sample_os) later_os = Ok m2 ∧
    hostname h1 = "web-1" ∧ hostname h2 = "web-2" ∧
    field "hostname" m1 = Some (JString "web-1") ∧
    field "hostname" m2 = Some (JString "web-2") ∧
    ("web-1" ≠ "web-2" →
     hostname h1 ≠ hostname h2 ∧ field "hostname" m1 ≠ field "hostname" m2).
Proof.
  apply (hostname_queried_per_request staging_environ sample_os sample_os later_os
           "web-1" "web-2"); reflexivity.
Defined.



(** C1. The [uptime_seconds] of a health answer is the difference between
    the clock reading at the request and [START_TIME], the reading taken
    once when the process started, rounded to two decimals.  On values:
    for readings that are finite floats in normal form it is the float
    nearest to the exact difference, brought to hundredths with ties to
    even.  It is not negative when the reading at the request is not
    earlier than the one at start. *)
Theorem uptime_rounded_elapsed_time
    (environ : gmap string string) (os0 os : OS) (h : HealthResponse) :
  clock_value (time_time os0) →
  clock_value (time_time os) →
  health_check (startup environ os0) os = Ok h →
  uptime_seconds h = round (float_sub (time_time os) (time_time os0)) 2 ∧
  units (uptime_seconds h)
    = round_units (rounded (units (time_time os) - units (time_time os0)) 1) ∧
  (float_le (time_time os0) (time_time os) = true →
   float_le (S754_zero false) (uptime_seconds h) = true).
Proof.
  intros Hs Hn (host & _ & ->)%health_check_inv.
  cbn [uptime_seconds START_TIME startup].
  split; [done|].
  destruct (float_sub_units _ _ Hn Hs) as (V & N & U).
  destruct (round_units_correct _ V N) as (_ & _ & R).
  split; [by rewrite R, U|].
  intros Hle.
  destruct (float_sub_nonneg _ _ Hn Hs Hle) as [[s E]|Hsign]; [by rewrite E|].
  apply round_sign in Hsign.
  destruct (round _ 2) as [s|s| |s m e]; simpl in Hsign; try done; by subst.
Qed.

Lemma uptime_rounded_elapsed_time_witness :
  ∃ h, health_check (startup staging_environ sample_os) later_os = Ok h ∧
    uptime_seconds h = S754_finite false 6952431924753203 (-49) ∧
    units (uptime_seconds h)
      = round_units (rounded (units (time_time later_os) - units (time_time sample_os)) 1) ∧
    float_le (S754_zero false) (uptime_seconds h) = true.
Proof.
  eexists. split; [reflexivity|]. split; [reflexivity|].
  destruct (uptime_rounded_elapsed_time staging_environ sample_os later_os _
              ltac:(split; reflexivity) ltac:(split; reflexivity) eq_refl)
    as (_ & Hu & Hle).
  split; [exact Hu | exact (Hle eq_refl)].
Defined.

(** C4. Two successive health checks answered by one process, the second
    at a clock reading that is not earlier than that of the first, report
    uptimes [u1 <= u2]. *)
Theorem successive_uptime_nondecreasing
    (p : process) (os1 os2 : OS) (r1 r2 : response) :
  clock_value (START_TIME p) →
  clock_value (time_time os1) →
  clock_value (time_time os2) →
  float_le (time_time os1) (time_time os2) = true →
  (serve p [(os1, "/health"); (os2, "/health")]).1 = [Some r1; Some r2] →
  status_code r1 = 200 →
  status_code r2 = 200 →
  ∃ u1 u2,
    field "uptime_seconds" (content r1) = Some (JFloat u1) ∧
    field "uptime_seconds" (content r2) = Some (JFloat u2) ∧
    float_le u1 u2 = true.
Proof.
  intros Hs H1 H2 Hle Hserve Hr1 Hr2.
  cbn [serve] in Hserve. rewrite !dispatch_health in Hserve.
  destruct (health_check p os1) as [h1|exc1] eqn:E1,
           (health_check p os2) as [h2|exc2] eqn:E2;
    cbn [fst] in Hserve; revert Hserve; intros [= <- <-]; try done.
  apply health_check_inv in E1 as (host1 & _ & ->).
  apply health_check_inv in E2 as (host2 & _ & ->).
  eexists _, _. split; [reflexivity|]. split; [reflexivity|].
  by apply uptime_order.
Qed.

Lemma successive_uptime_nondecreasing_witness :
  ∃ r1 r2,
    (serve (startup staging_environ sample_os)
       [(sample_os, "/health"); (later_os, "/health")]).1 = [Some r1; Some r2] ∧
    field "uptime_seconds" (content r1) = Some (JFloat (S754_zero false)) ∧
    field "uptime_seconds" (content r2)
      = Some (JFloat (S754_finite false 6952431924753203 (-49))) ∧
    ∃ u1 u2,
      field "uptime_seconds" (content r1) = Some (JFloat u1) ∧
      field "uptime_seconds" (content r2) = Some (JFloat u2) ∧
      float_le u1 u2 = true.
Proof.
  eexists _, _. split; [reflexivity|]. split; [reflexivity|]. split; [reflexivity|].
  apply (successive_uptime_nondecreasing (startup staging_environ sample_os)
           sample_os later_os);
    [split; reflexivity | split; reflexivity | split; reflexivity
    | reflexivity | reflexivity | reflexivity | reflexivity].
Defined.

(* ================================================================== *)
(** * Part VI: further properties of the handlers *)
(* ================================================================== *)

(** X1. When the host name lookup succeeds, [GET /health] and
    [GET /metadata] both answer 200; the health object has exactly the
    seven fields of [HealthResponse] in their declared order, the metadata
    object exactly [hostname], [environment], [cloud_provider] and
    [version]. *)
Theorem lookup_ok_answers (p : process) (os : OS) (host : string) :
  socket_gethostname os = Ok host →
  ∃ rh rm,
    app p os "/health" = Some rh ∧ app p os "/metadata" = Some rm ∧
    status_code rh = 200 ∧ status_code rm = 200 ∧
    keys (content rh) = ["status"; "timestamp"; "hostname"; "environment";
                         "cloud_provider"; "version"; "uptime_seconds"] ∧
    keys (content rm) = ["hostname"; "environment"; "cloud_provider"; "version"].
Proof.
  intros Hos. unfold app. simpl. unfold health_check, instance_metadata.
  rewrite Hos. simpl. eexists _, _. repeat split.
Qed.

Lemma lookup_ok_answers_witness :
  socket_gethostname later_os = Ok "web-2" ∧
  ∃ rh rm,
    app (startup staging_environ sample_os) later_os "/health" = Some rh ∧
    app (startup staging_environ sample_os) later_os "/metadata" = Some rm ∧
    status_code rh = 200 ∧ status_code rm = 200 ∧
    keys (content rh) = ["status"; "timestamp"; "hostname"; "environment";
                         "cloud_provider"; "version"; "uptime_seconds"] ∧
    keys (content rm) = ["hostname"; "environment"; "cloud_provider"; "version"].
Proof.
  split; [reflexivity|].
  apply (lookup_ok_answers (startup staging_environ sample_os) later_os "web-2").
  reflexivity.
Defined.

(** X2. Every answer of the four routes has status 200 or 500, and it is
    500 exactly when the path is [/health] or [/metadata] and the host
    name lookup raised; the answer is then the one built by
    [global_exception_handler] from that exception.  [GET /] and
    [GET /ready] never answer 500. *)
Theorem status_500_iff_lookup_fails
    (p : process) (os : OS) (path : string) (r : response) :
  app p os path = Some r →
  (status_code r = 200 ∨ status_code r = 500) ∧
  (status_code r = 500 ↔
   (path = "/health" ∨ path = "/metadata") ∧
   ∃ exc, socket_gethostname os = Raise exc ∧ r = global_exception_handler os exc).
Proof.
  unfold app. destruct (route path) as [ep|] eqn:E; [|done].
  apply route_inv in E as ->. intros [= <-].
  destruct ep; simpl; unfold health_check, instance_metadata;
    try (split; [by left|]; split; [done|]; intros [[?|?] _]; done).
  - destruct (socket_gethostname os) as [host|exc]; simpl.
    + split; [by left|]. split; [done|]. by intros [_ (exc & ? & _)].
    + split; [by right|]. split; [|done]. intros _. split; [by left|]. by exists exc.
  - destruct (socket_gethostname os) as [host|exc]; simpl.
    + split; [by left|]. split; [done|]. by intros [_ (exc & ? & _)].
    + split; [by right|]. split; [|done]. intros _. split; [by right|]. by exists exc.
Qed.

Lemma status_500_iff_lookup_fails_witness :
  app (startup staging_environ sample_os) failing_os "/metadata"
    = Some (global_exception_handler failing_os
              (new_exception OSError [lookup_failed])) ∧
  status_code (global_exception_handler failing_os
                 (new_exception OSError [lookup_failed])) = 500.
Proof.
  split; [reflexivity|].
  apply (status_500_iff_lookup_fails (startup staging_environ sample_os) failing_os
           "/metadata" _ eq_refl).
  split; [by right|]. by eexists.
Defined.



(** X4. The [timestamp] of a health answer contains a [.] exactly when the
    microsecond of the current UTC time is not zero: [isoformat] leaves the
    fraction out on a whole second. *)
Theorem timestamp_fraction_iff_microseconds
    (p : process) (os : OS) (h : HealthResponse) :
  health_check p os = Ok h →
  occurs dot (timestamp h) = negb (N.eqb (microsecond (datetime_utcnow os)) 0).
Proof.
  intros (host & _ & ->)%health_check_inv. simpl.
  rewrite isoformat_utcnow, !occurs_app, occurs_dot_format_date, occurs_dot_format_time.
  done.
Qed.

Lemma timestamp_fraction_iff_microseconds_witness :
  ∃ h1 h2,
    health_check (startup staging_environ sample_os) sample_os = Ok h1 ∧
    health_check (startup staging_environ sample_os) later_os = Ok h2 ∧
    timestamp h1 = "2024-10-27T03:33:20" ∧ occurs dot (timestamp h1) = false ∧
    timestamp h2 = "2024-10-27T03:33:32.345600" ∧ occurs dot (timestamp h2) = true.
Proof.
  eexists _, _. split; [reflexivity|]. split; [reflexivity|].
  split; [reflexivity|]. split.
  - apply (timestamp_fraction_iff_microseconds (startup staging_environ sample_os)
             sample_os _ eq_refl).
  - split; [reflexivity|].
    apply (timestamp_fraction_iff_microseconds (startup staging_environ sample_os)
             later_os _ eq_refl).
Defined.

(** X5. A health check made while the clock still shows the start time
    reports an uptime of exactly [+0.0]. *)
Theorem uptime_zero_at_start (p : process) (os : OS) (h : HealthResponse) :
  is_finite (START_TIME p) = true →
  time_time os = START_TIME p →
  health_check p os = Ok h →
  uptime_seconds h = S754_zero false.
Proof.
  intros Hfin Hnow (host & _ & ->)%health_check_inv. simpl.
  by rewrite Hnow, float_sub_diag.
Qed.

Lemma uptime_zero_at_start_witness :
  ∃ h, health_check (startup staging_environ sample_os) sample_os = Ok h ∧
    uptime_seconds h = S754_zero false.
Proof.
  eexists. split; [reflexivity|].
  apply (uptime_zero_at_start (startup staging_environ sample_os) sample_os);
    reflexivity.
Defined.

(** X6. For finite clock readings at start and at the request, the
    [uptime_seconds] of a health answer is never a NaN. *)
Theorem uptime_never_nan (p : process) (os : OS) (h : HealthResponse) :
  is_finite (START_TIME p) = true →
  is_finite (time_time os) = true →
  health_check p os = Ok h →
  is_nan (uptime_seconds h) = false.
Proof.
  intros Hs Hn (host & _ & ->)%health_check_inv. simpl.
  destruct (float_sub_sign _ _ Hn Hs) as [s Hsign].
  apply round_sign in Hsign.
  by destruct (round _ 2).
Qed.

Lemma uptime_never_nan_witness :
  ∃ h, health_check (startup staging_environ sample_os) later_os = Ok h ∧
    is_nan (uptime_seconds h) = false.
Proof.
  eexists. split; [reflexivity|].
  apply (uptime_never_nan (startup staging_environ sample_os) later_os);
    reflexivity.
Defined.

(** X7. When the clock readings at start and at the request are finite
    floats in normal form and the start reading is not the greater one,
    the [uptime_seconds] of the health answer is not negative:
    [0.0 <= uptime_seconds]. *)
Theorem uptime_nonneg (p : process) (os : OS) (h : HealthResponse) :
  clock_value (START_TIME p) →
  clock_value (time_time os) →
  float_le (START_TIME p) (time_time os) = true →
  health_check p os = Ok h →
  float_le (S754_zero false) (uptime_seconds h) = true.
Proof.
  intros Hs Hn Hle (host & _ & ->)%health_check_inv. simpl.
  destruct (float_sub_nonneg _ _ Hn Hs Hle) as [[s ->]|Hsign]; [done|].
  apply round_sign in Hsign.
  destruct (round _ 2) as [s|s| |s m e]; simpl in Hsign; try done; by subst.
Qed.

Lemma uptime_nonneg_witness :
  ∃ h, health_check (startup staging_environ sample_os) later_os = Ok h ∧
    uptime_seconds h = S754_finite false 6952431924753203 (-49) ∧
    float_le (S754_zero false) (uptime_seconds h) = true.
Proof.
  eexists. split; [reflexivity|]. split; [reflexivity|].
  apply (uptime_nonneg (startup staging_environ sample_os) later_os);
    [split; reflexivity | split; reflexivity | reflexivity | reflexivity].
Defined.

(** X8. Nothing clamps the uptime: when the clock reading at the request
    is not greater than the one at start (the wall clock was set back),
    the [uptime_seconds] of the health answer is zero or negative:
    [uptime_seconds <= 0.0]. *)
Theorem uptime_nonpos_when_clock_set_back
    (p : process) (os : OS) (h : HealthResponse) :
  clock_value (START_TIME p) →
  clock_value (time_time os) →
  float_le (time_time os) (START_TIME p) = true →
  health_check p os = Ok h →
  float_le (uptime_seconds h) (S754_zero false) = true.
Proof.
  intros Hs Hn Hle (host & _ & ->)%health_check_inv. simpl.
  destruct (float_sub_nonpos _ _ Hn Hs Hle) as [[s ->]|Hsign]; [done|].
  apply round_sign in Hsign.
  destruct (round _ 2) as [s|s| |s m e]; simpl in Hsign; try done; by subst.
Qed.

Lemma uptime_nonpos_when_clock_set_back_witness :
  ∃ h, health_check (startup staging_environ later_os) sample_os = Ok h ∧
    uptime_seconds h = S754_finite true 6952431924753203 (-49) ∧
    float_le (uptime_seconds h) (S754_zero false) = true.
Proof.
  eexists. split; [reflexivity|]. split; [reflexivity|].
  apply (uptime_nonpos_when_clock_set_back (startup staging_environ later_os) sample_os);
    [split; reflexivity | split; reflexivity | reflexivity | reflexivity].
Defined.

(** X9. The uptime does not decrease with the clock: for clock readings
    that are finite floats in normal form, a health check made at a
    reading [t1] and one made at a reading [t2] with [t1 <= t2] report
    uptimes [u1 <= u2]. *)
Theorem uptime_monotone
    (p : process) (os1 os2 : OS) (h1 h2 : HealthResponse) :
  clock_value (START_TIME p) →
  clock_value (time_time os1) →
  clock_value (time_time os2) →
  float_le (time_time os1) (time_time os2) = true →
  health_check p os1 = Ok h1 →
  health_check p os2 = Ok h2 →
  float_le (uptime_seconds h1) (uptime_seconds h2) = true.
Proof.
  intros Hs H1 H2 Hle (host1 & _ & ->)%health_check_inv (host2 & _ & ->)%health_check_inv.
  simpl. by apply uptime_order.
Qed.

Lemma uptime_monotone_witness :
  ∃ h1 h2,
    health_check (startup staging_environ sample_os) sample_os = Ok h1 ∧
    health_check (startup staging_environ sample_os) later_os = Ok h2 ∧
    uptime_seconds h1 = S754_zero false ∧
    uptime_seconds h2 = S754_finite false 6952431924753203 (-49) ∧
    float_le (uptime_seconds h1) (uptime_seconds h2) = true.
Proof.
  eexists _, _. split; [reflexivity|]. split; [reflexivity|].
  split; [reflexivity|]. split; [reflexivity|].
  apply (uptime_monotone (startup staging_environ sample_os) sample_os later_os);
    [split; reflexivity | split; reflexivity | split; reflexivity
    | reflexivity | reflexivity | reflexivity].
Defined.

(** X10. The reported uptime is within one hundredth of a second of the
    elapsed time: when the clock readings are finite floats in normal
    form, the reading at the request lies between [START_TIME] and twice
    [START_TIME], and [START_TIME] is at most [2^45] seconds, then
    [uptime_seconds] differs from the exact difference of the two readings
    by at most 0.01 (values in units of [2^-1074]: a hundred times the
    distance is at most [2^1074] units, which is one second). *)
Theorem uptime_within_hundredth (p : process) (os : OS) (h : HealthResponse) :
  clock_value (START_TIME p) →
  clock_value (time_time os) →
  0 <= units (time_time os) - units (START_TIME p) <= units (START_TIME p) →
  units (START_TIME p) <= 2 ^ 1119 →
  health_check p os = Ok h →
  100 * Z.abs (units (uptime_seconds h)
               - (units (time_time os) - units (START_TIME p))) <= 2 ^ 1074.
Proof.
  intros Hs Hn Hx Hbig (host & _ & ->)%health_check_inv. simpl.
  destruct (float_sub_units _ _ Hn Hs) as (V & N & U).
  destruct (round_units_correct _ V N) as (_ & _ & R).
  rewrite R, U, (rounded_difference_exact _ _ Hs Hn Hx).
  apply round_units_tolerance. lia.
Qed.

Lemma uptime_within_hundredth_witness :
  ∃ h, health_check (startup staging_environ sample_os) later_os = Ok h ∧
    100 * Z.abs (units (uptime_seconds h)
                 - (units (time_time later_os) - units (time_time sample_os)))
    <= 2 ^ 1074.
Proof.
  eexists. split; [reflexivity|].
  apply (uptime_within_hundredth (startup staging_environ sample_os) later_os);
    [split; reflexivity | split; reflexivity
    | split; by vm_compute | by vm_compute | reflexivity].
Defined.
